(** * mailbot8: the inbox poller, its state store and the command handlers

    A shallow embedding of [src/bot.js] (the current bot) and of the two
    variants kept next to it, [src/backup.js] and [src/bot2.js], followed by
    the properties the specification states about them.

    Conventions of the embedding.
    - [userData], a JavaScript object used as a dictionary, is a [gmap] from
      the stringified chat id to the user's record; [seenEmails] is a [gmap]
      from address to a [gmap] from message id to the stored boolean.  A
      [gmap] holds the object's own properties only: the embedding follows
      the code for the addresses and message ids that are not names every
      JavaScript object inherits ([plain_key]), and the theorems about poll
      cycles state this as a hypothesis.  A chat id is a number, so its
      rendering is never such a name.  A [World] describes a process whose
      built-in objects are as at startup, which cycles at plain addresses
      leave so.
    - A text is a [string] of bytes, and white space is cut at its ASCII
      part; the theorems about the handlers that cut a text take it to be
      ASCII ([ascii_only]), where this is all the white space JavaScript
      knows.
    - The process state is a [World]: the in-memory [userData], the content of
      [bot_data.json], the chronicle of every [bot.sendMessage] call (newest
      first) with its outcome, the number of [writeFileSync] calls, and the
      lines written to the console.
    - The outside world is an [Env]: whether the k-th send is delivered,
      whether the k-th file write succeeds and, when it fails, whether it
      fails after having opened the file, which leaves it empty or partial.
      Provider responses are arguments of the functions that issue the
      request.
    - A poll cycle runs from its first to its last statement without another
      cycle or handler interleaving at its [await] points. *)

From Stdlib Require Import String Ascii List Bool Arith NArith Lia.
From stdpp Require Import base option gmap strings list fin_maps.

Local Open Scope string_scope.
Local Open Scope list_scope.
Local Open Scope nat_scope.

(** ** Data model *)

(** [{ emails: [], seenEmails: {} }] *)
Record UserState := {
  emails : list string;
  seenEmails : gmap string (gmap string bool)
}.

Abbreviation UserData := (gmap string UserState).

(** A message as the provider returns it. *)
Record mail := {
  mail_id : string;
  mail_from : option string;
  mail_subject : option string;
  mail_preview : option string;
  mail_hasAttachments : bool
}.

Record attachment := {
  att_filename : string;
  att_size : option N;
  att_url : string
}.

(** What [axios.get] gives back: it throws, or [res.data] is an envelope
    [{success, result}], a bare array, a string of [chars] characters (a body
    that is not JSON), or something else (null, a number, a boolean, another
    object). *)
Inductive body (A : Type) :=
| BodyEnvelope (success : bool) (result : option (list A))
| BodyArray (items : list A)
| BodyText (chars : nat)
| BodyOther.
Arguments BodyEnvelope {A} success result.
Arguments BodyArray {A} items.
Arguments BodyText {A} chars.
Arguments BodyOther {A}.

Inductive http (A : Type) :=
| HttpError
| HttpOk (data : body A).
Arguments HttpError {A}.
Arguments HttpOk {A} data.

(** The texts the bot sends, by their variable parts. *)
Inductive reply :=
| NoDomains
| Created (email : string)
| NowTracking (email : string)
| AlreadyTracking (email : string)
| UsageAdd
| NoTrackedEmails
| UsageDelete
| Stopped (email : string)
| NotFound (email : string)
| UsageImport
| InvalidImport
| Imported (added total : nat)
| ImportedCount (n : nat)
| Removed (email : string)
| TrackingStarted (email : string).

Inductive message :=
| NewEmail (email sender subject id : string) (preview : option string)
| AttachmentNote (filename : string) (size : option N) (url : string)
| Reply (r : reply).

Inductive log_line :=
| LoadError
| SaveError
| SendError
| DomainsError
| FetchEmailsError (email : string)
| FetchAttachmentsError (email : string)
| CycleError (email : string).

(** The file [bot_data.json]. *)
Inductive file :=
| NoFile
| Garbage
| Snapshot (ud : UserData).

(** One [bot.sendMessage] call: recipient, text, delivered or not. *)
Record sending := {
  to : string;
  text : message;
  delivered : bool
}.

Record World := {
  userData : UserData;
  disk : file;
  sent : list sending;
  writes : nat;
  console : list log_line
}.

(** [deliver k]: the k-th send is delivered.  [write_ok k]: the k-th
    [writeFileSync] succeeds.  [torn k]: when the k-th [writeFileSync] fails,
    it fails after the file was opened, which empties it. *)
Record Env := {
  deliver : nat -> bool;
  write_ok : nat -> bool;
  torn : nat -> bool
}.

(** A run is the current world together with the worlds it went through,
    most recent first: every effect of the program is one [tick]. *)
Record Run := {
  now : World;
  past : list World
}.

Definition start (w : World) : Run := {| now := w; past := [] |}.

Definition tick (f : World -> World) (r : Run) : Run :=
  {| now := f (now r); past := now r :: past r |}.

Definition points (r : Run) : list World := now r :: past r.

(** ** Reading the state *)

(** [userData[chatId].emails], the empty list for an unknown user. *)
Definition tracked (ud : UserData) (chatId : string) : list string :=
  match ud !! chatId with
  | Some u => emails u
  | None => []
  end.

Definition truthy (o : option bool) : bool :=
  match o with
  | Some true => true
  | _ => false
  end.

(** [userData[chatId].seenEmails[email][id]] as a truth value. *)
Definition is_seen (ud : UserData) (chatId email id : string) : bool :=
  match ud !! chatId with
  | Some u =>
      match seenEmails u !! email with
      | Some s => truthy (s !! id)
      | None => false
      end
  | None => false
  end.

Definition seen_on_disk (f : file) (chatId email id : string) : bool :=
  match f with
  | Snapshot ud => is_seen ud chatId email id
  | _ => false
  end.

(** ** Strings as the handlers cut them

    White space is the ASCII part of what [trim] and [\s] recognise. *)

Definition is_space (a : ascii) : bool :=
  match nat_of_ascii a with
  | 9 | 10 | 11 | 12 | 13 | 32 => true
  | _ => false
  end.

Fixpoint drop_spaces (s : list ascii) : list ascii :=
  match s with
  | c :: s' => if is_space c then drop_spaces s' else s
  | [] => []
  end.

(** [s.trim()] *)
Definition trim (s : string) : string :=
  string_of_list_ascii
    (rev (drop_spaces (rev (drop_spaces (list_ascii_of_string s))))).

(** [s.split(/\s+/)]: [gap] tells that the previous character was white
    space, [acc] holds the current piece in reverse. *)
Fixpoint split_spaces_from (gap : bool) (acc s : list ascii) : list string :=
  match s with
  | [] => [string_of_list_ascii (rev acc)]
  | c :: s' =>
      if is_space c then
        if gap then split_spaces_from true acc s'
        else string_of_list_ascii (rev acc) :: split_spaces_from true [] s'
      else split_spaces_from false (c :: acc) s'
  end.

Definition split_spaces (s : string) : list string :=
  split_spaces_from false [] (list_ascii_of_string s).

(** [s.split(',')] *)
Fixpoint split_commas_from (acc s : list ascii) : list string :=
  match s with
  | [] => [string_of_list_ascii (rev acc)]
  | c :: s' =>
      if Ascii.eqb c ","%char
      then string_of_list_ascii (rev acc) :: split_commas_from [] s'
      else split_commas_from (c :: acc) s'
  end.

Definition split_commas (s : string) : list string :=
  split_commas_from [] (list_ascii_of_string s).

Definition nonempty (s : string) : bool :=
  match s with
  | EmptyString => false
  | _ => true
  end.

(** [l.map(e => e.trim()).filter(Boolean)] *)
Definition cleaned (l : list string) : list string :=
  List.filter nonempty (map trim l).

(** ** Updates of one user's record, shared by the three files *)

(** [userData[chatId].emails.push(e)] *)
Definition push (chatId e : string) (ud : UserData) : UserData :=
  alter (fun u => {| emails := emails u ++ [e]; seenEmails := seenEmails u |})
    chatId ud.

(** [userData[chatId].emails = userData[chatId].emails.filter(x => x !== e)] *)
Definition drop_email (chatId e : string) (ud : UserData) : UserData :=
  alter (fun u =>
    {| emails := List.filter (fun x => negb (String.eqb x e)) (emails u);
       seenEmails := seenEmails u |}) chatId ud.

(** [if (userData[chatId].seenEmails[e]) delete userData[chatId].seenEmails[e]] *)
Definition forget_seen (chatId e : string) (ud : UserData) : UserData :=
  alter (fun u => {| emails := emails u; seenEmails := delete e (seenEmails u) |})
    chatId ud.

(** The loop of the import handlers: push what is not included yet, and
    count the pushes. *)
Definition import_step (chatId : string) (st : UserData * nat) (e : string)
    : UserData * nat :=
  if bool_decide (e ∈ tracked st.1 chatId) then st
  else (push chatId e st.1, S st.2).

Definition import_loop (chatId : string) (es : list string) (ud : UserData)
    : UserData * nat :=
  fold_left (import_step chatId) es (ud, 0).

(** ** bot.js *)

Module Bot.

(** Changing [userData] only. *)
Definition update (f : UserData -> UserData) (w : World) : World :=
  {| userData := f (userData w);
     disk := disk w;
     sent := sent w;
     writes := writes w;
     console := console w |}.

Definition log (ls : list log_line) (w : World) : World :=
  {| userData := userData w;
     disk := disk w;
     sent := sent w;
     writes := writes w;
     console := ls ++ console w |}.

(** The load at startup (lines 22-29). *)
Definition load (w : World) : World :=
  match disk w with
  | NoFile => update (fun _ => ∅) w
  | Garbage => log [LoadError] (update (fun _ => ∅) w)
  | Snapshot ud => update (fun _ => ud) w
  end.

(** [saveData] (lines 32-38).  [writeFileSync] opens the file for writing,
    which creates or empties it, and then writes the text: a call that fails
    before the file is opened leaves the file as it was, a call that fails
    later leaves an empty or partial text, which does not parse. *)
Definition saveData (env : Env) (w : World) : World :=
  if write_ok env (writes w) then
    {| userData := userData w;
       disk := Snapshot (userData w);
       sent := sent w;
       writes := S (writes w);
       console := console w |}
  else
    {| userData := userData w;
       disk := if torn env (writes w) then Garbage else disk w;
       sent := sent w;
       writes := S (writes w);
       console := SaveError :: console w |}.

(** [bot.sendMessage(...).catch(...)]: a failed delivery is logged. *)
Definition sendTelegram (env : Env) (chatId : string) (m : message)
    (w : World) : World :=
  let ok := deliver env (length (sent w)) in
  {| userData := userData w;
     disk := disk w;
     sent := {| to := chatId; text := m; delivered := ok |} :: sent w;
     writes := writes w;
     console := if ok then console w else SendError :: console w |}.

(** The shape test shared by the three provider helpers. *)
Definition unwrap {A} (b : body A) : list A :=
  match b with
  | BodyEnvelope true (Some l) => l
  | BodyEnvelope _ _ => []
  | BodyArray l => l
  | BodyText _ => []
  | BodyOther => []
  end.

Definition getDomains (resp : http string) : list string * list log_line :=
  match resp with
  | HttpOk b => (unwrap b, [])
  | HttpError => ([], [DomainsError])
  end.

Definition fetchEmailsForAddress (email : string) (resp : http mail)
    : list mail * list log_line :=
  match resp with
  | HttpOk b => (unwrap b, [])
  | HttpError => ([], [FetchEmailsError email])
  end.

Definition fetchAttachmentsForAddress (email : string) (resp : http attachment)
    : list attachment * list log_line :=
  match resp with
  | HttpOk b => (unwrap b, [])
  | HttpError => ([], [FetchAttachmentsError email])
  end.

(** [Math.random().toString(36).substring(2, 10)] and
    [domains[Math.floor(Math.random() * domains.length)]]: [r36] is the
    base-36 rendering of the first draw, [k] the index the second yields. *)
Definition generateRandomEmail (r36 : string) (k : nat) (domains : list string)
    : string :=
  let local := substring 2 8 r36 in
  let domain := nth k domains "undefined" in
  (local ++ "@" ++ domain)%string.

Definition fresh_user : UserState := {| emails := []; seenEmails := ∅ |}.

Definition ensureUser (chatId : string) (ud : UserData) : UserData :=
  match ud !! chatId with
  | Some _ => ud
  | None => <[chatId := fresh_user]> ud
  end.

(** [if (!userData[chatId].seenEmails[email]) userData[chatId].seenEmails[email] = {}] *)
Definition ensure_seen (chatId email : string) (ud : UserData) : UserData :=
  alter (fun u =>
    match seenEmails u !! email with
    | Some _ => u
    | None => {| emails := emails u; seenEmails := <[email := ∅]> (seenEmails u) |}
    end) chatId ud.

(** [userData[chatId].seenEmails[email][id] = true] *)
Definition mark_seen (chatId email id : string) (ud : UserData) : UserData :=
  alter (fun u =>
    {| emails := emails u;
       seenEmails := alter (fun s => <[id := true]> s) email (seenEmails u) |})
    chatId ud.

(** [x || fallback] on a string that may be missing. *)
Definition or_else (o : option string) (fallback : string) : string :=
  match o with
  | Some "" => fallback
  | Some s => s
  | None => fallback
  end.

Definition if_present (o : option string) : option string :=
  match o with
  | Some "" => None
  | other => other
  end.

Definition compose (email : string) (m : mail) : message :=
  NewEmail email
    (or_else (mail_from m) "unknown")
    (or_else (mail_subject m) "(no subject)")
    (mail_id m)
    (if_present (mail_preview m)).

Definition attachment_note (a : attachment) : message :=
  AttachmentNote (att_filename a)
    (match att_size a with Some 0%N => None | other => other end)
    (att_url a).

Definition send_attachments (env : Env) (chatId : string)
    (atts : list attachment) (r : Run) : Run :=
  fold_left (fun r a => tick (sendTelegram env chatId (attachment_note a)) r)
    atts r.

(** The body of the loop of [checkEmailInbox] (lines 109-128).  [attResp] is
    the provider's answer to the attachment request issued for this mail. *)
Definition process_mail (env : Env) (chatId email : string)
    (attResp : mail -> http attachment) (r : Run) (m : mail) : Run :=
  if is_seen (userData (now r)) chatId email (mail_id m) then r
  else
    let r1 := tick (update (mark_seen chatId email (mail_id m))) r in
    let r2 := tick (sendTelegram env chatId (compose email m)) r1 in
    let r3 :=
      if mail_hasAttachments m then
        let '(atts, errs) := fetchAttachmentsForAddress email (attResp m) in
        send_attachments env chatId atts (tick (log errs) r2)
      else r2 in
    tick (saveData env) r3.

(** [checkEmailInbox] (lines 101-133).  No statement of the body throws on
    the values of this model, so the [catch] branch is never taken. *)
Definition checkEmailInbox (env : Env) (chatId email : string)
    (resp : http mail) (attResp : mail -> http attachment) (w : World) : Run :=
  let r0 := tick (update (ensureUser chatId)) (start w) in
  let '(mails, errs) := fetchEmailsForAddress email resp in
  let r1 := tick (log errs) r0 in
  let r2 := tick (update (ensure_seen chatId email)) r1 in
  fold_left (process_mail env chatId email attResp) mails r2.

(** One poll cycle, from world to world. *)
Definition cycle (env : Env) (chatId email : string)
    (resp : http mail) (attResp : mail -> http attachment) (w : World) : World :=
  now (checkEmailInbox env chatId email resp attResp w).

(** [n] cycles in a row against the same provider response. *)
Definition cycles (env : Env) (chatId email : string)
    (resp : http mail) (attResp : mail -> http attachment) (n : nat)
    (w : World) : World :=
  Nat.iter n (cycle env chatId email resp attResp) w.

(** [pollAllEmailsForUser] (lines 136-142): [prov] and [attProv] give the
    provider's answers for each address during this sweep. *)
Definition poll_list (env : Env) (chatId : string)
    (prov : string -> http mail) (attProv : string -> mail -> http attachment)
    (l : list string) (w : World) : World :=
  fold_left (fun w email => cycle env chatId email (prov email) (attProv email) w)
    l w.

Definition pollAllEmailsForUser (env : Env) (chatId : string)
    (prov : string -> http mail) (attProv : string -> mail -> http attachment)
    (w : World) : World :=
  let w1 := update (ensureUser chatId) w in
  poll_list env chatId prov attProv (tracked (userData w1) chatId) w1.

(** [/new] (lines 183-192): [resp] is the provider's answer to the domain
    request, [r36] and [k] the two random draws. *)
Definition new_handler (env : Env) (chatId : string) (resp : http string)
    (r36 : string) (k : nat) (w : World) : World :=
  let w1 := update (ensureUser chatId) w in
  let '(domains, errs) := getDomains resp in
  let w2 := log errs w1 in
  match domains with
  | [] => sendTelegram env chatId (Reply NoDomains) w2
  | _ =>
      let newEmail := generateRandomEmail r36 k domains in
      let w3 := update (push chatId newEmail) w2 in
      let w4 := saveData env w3 in
      sendTelegram env chatId (Reply (Created newEmail)) w4
  end.

(** [/add <email>] (lines 195-214). *)
Definition add_handler (env : Env) (chatId : string) (text : string)
    (w : World) : World :=
  let w1 := update (ensureUser chatId) w in
  match split_spaces (trim text) with
  | _ :: part :: _ =>
      let email := trim part in
      if bool_decide (email ∈ tracked (userData w1) chatId) then
        sendTelegram env chatId (Reply (AlreadyTracking email)) w1
      else
        let w2 := update (push chatId email) w1 in
        let w3 := saveData env w2 in
        sendTelegram env chatId (Reply (NowTracking email)) w3
  | _ => sendTelegram env chatId (Reply UsageAdd) w1
  end.

(** [/delete <email>] (lines 217-242).  The test [!userData[chatId]] cannot
    succeed after [ensureUser]. *)
Definition delete_handler (env : Env) (chatId : string) (text : string)
    (w : World) : World :=
  let w1 := update (ensureUser chatId) w in
  match split_spaces (trim text) with
  | _ :: part :: _ =>
      let email := trim part in
      let beforeLength := length (tracked (userData w1) chatId) in
      let w2 := update (drop_email chatId email) w1 in
      let w3 := update (forget_seen chatId email) w2 in
      let w4 := saveData env w3 in
      if (length (tracked (userData w4) chatId) <? beforeLength)%nat
      then sendTelegram env chatId (Reply (Stopped email)) w4
      else sendTelegram env chatId (Reply (NotFound email)) w4
  | _ => sendTelegram env chatId (Reply UsageDelete) w1
  end.

(** [/import <list>] (lines 280-307). *)
Definition import_handler (env : Env) (chatId : string) (text : string)
    (w : World) : World :=
  let w1 := update (ensureUser chatId) w in
  match take 2 (split_spaces (trim text)) with
  | [_; emailList] =>
      match cleaned (split_commas emailList) with
      | [] => sendTelegram env chatId (Reply InvalidImport) w1
      | es =>
          let '(ud, imported) := import_loop chatId es (userData w1) in
          let w2 := update (fun _ => ud) w1 in
          let w3 := saveData env w2 in
          sendTelegram env chatId
            (Reply (Imported imported (length (tracked ud chatId)))) w3
      end
  | _ => sendTelegram env chatId (Reply UsageImport) w1
  end.

End Bot.

(** ** backup.js: the two handlers that differ from bot.js

    [arg] is what the handler's pattern captures after the command. *)

Module Backup.
Import Bot.

(** [/delete (.+)] (lines 190-198). *)
Definition delete_handler (env : Env) (chatId : string) (arg : string)
    (w : World) : World :=
  match userData w !! chatId with
  | None => sendTelegram env chatId (Reply NoTrackedEmails) w
  | Some _ =>
      let email := trim arg in
      let w1 := update (drop_email chatId email) w in
      let w2 := update (forget_seen chatId email) w1 in
      let w3 := saveData env w2 in
      sendTelegram env chatId (Reply (Stopped email)) w3
  end.

(** [/import (.+)] (lines 235-244). *)
Definition import_handler (env : Env) (chatId : string) (arg : string)
    (w : World) : World :=
  let w1 := update (ensureUser chatId) w in
  let es := cleaned (split_commas arg) in
  let '(ud, _) := import_loop chatId es (userData w1) in
  let w2 := update (fun _ => ud) w1 in
  let w3 := saveData env w2 in
  sendTelegram env chatId (Reply (ImportedCount (length es))) w3.

End Backup.

(** ** bot2.js *)

Module Bot2.

(** [bot.sendMessage], not wrapped: the promise is rejected when the
    delivery fails. *)
Definition sendMessage (env : Env) (chatId : string) (m : message)
    (w : World) : World :=
  {| userData := userData w;
     disk := disk w;
     sent := {| to := chatId; text := m;
                delivered := deliver env (length (sent w)) |} :: sent w;
     writes := writes w;
     console := console w |}.

(** Did the last [sendMessage] reject? *)
Definition rejected (w : World) : bool :=
  match sent w with
  | s :: _ => negb (delivered s)
  | [] => false
  end.

(** How a piece of the cycle ends: normally, or by an exception on its way
    to the [catch] of [checkEmailInbox]. *)
Inductive outcome :=
| Normal (r : Run)
| Thrown (r : Run).

Definition and_then (o : outcome) (f : Run -> outcome) : outcome :=
  match o with
  | Normal r => f r
  | Thrown r => Thrown r
  end.

(** [await bot.sendMessage(...)] *)
Definition await_send (env : Env) (chatId : string) (m : message) (r : Run)
    : outcome :=
  let r' := tick (sendMessage env chatId m) r in
  if rejected (now r') then Thrown r' else Normal r'.

(** [fetchEmails] and [fetchAttachments] return [res.data] as it comes, and
    the empty array when the request throws. *)
Definition fetch {A} (resp : http A) : body A :=
  match resp with
  | HttpOk b => b
  | HttpError => BodyArray []
  end.

(** What the loop bodies read in a character of a string: every property
    they ask for is [undefined]. *)
Definition undefined_mail : mail :=
  {| mail_id := "undefined"; mail_from := None; mail_subject := None;
     mail_preview := None; mail_hasAttachments := false |}.

Definition undefined_attachment : attachment :=
  {| att_filename := "undefined"; att_size := None; att_url := "undefined" |}.

(** [for (const x of v)]: an array is iterated item by item and a string
    character by character, [undef] being what a character is to the loop
    body; an envelope object and the values [BodyOther] stands for are not
    iterable. *)
Definition for_of {A} (undef : A) (v : body A) (f : Run -> A -> outcome)
    (r : Run) : outcome :=
  match v with
  | BodyArray l => fold_left (fun o x => and_then o (fun r => f r x)) l (Normal r)
  | BodyText n =>
      fold_left (fun o x => and_then o (fun r => f r x)) (repeat undef n) (Normal r)
  | _ => Thrown r
  end.

Definition compose (email : string) (m : mail) : message :=
  NewEmail email
    (Bot.or_else (mail_from m) "Unknown")
    (Bot.or_else (mail_subject m) "(No subject)")
    (mail_id m)
    (Bot.if_present (mail_preview m)).

Definition attachment_note (a : attachment) : message :=
  AttachmentNote (att_filename a) None (att_url a).

(** The body of the loop of [checkEmailInbox] (lines 86-112). *)
Definition process_mail (env : Env) (chatId email : string)
    (attResp : mail -> http attachment) (r : Run) (m : mail) : outcome :=
  if is_seen (userData (now r)) chatId email (mail_id m) then Normal r
  else
    let r1 := tick (Bot.update (Bot.mark_seen chatId email (mail_id m))) r in
    and_then (await_send env chatId (compose email m) r1) (fun r2 =>
    and_then
      (if mail_hasAttachments m then
         for_of undefined_attachment (fetch (attResp m))
           (fun r a => await_send env chatId (attachment_note a) r) r2
       else Normal r2) (fun r3 =>
    Normal (tick (Bot.saveData env) r3))).

(** [checkEmailInbox] (lines 77-117): whatever is thrown inside is logged by
    the [catch] and the function returns. *)
Definition checkEmailInbox (env : Env) (chatId email : string)
    (resp : http mail) (attResp : mail -> http attachment) (w : World) : Run :=
  let r0 := tick (Bot.update (Bot.ensureUser chatId)) (start w) in
  let r1 := tick (Bot.update (Bot.ensure_seen chatId email)) r0 in
  match for_of undefined_mail (fetch resp)
          (process_mail env chatId email attResp) r1 with
  | Normal r => r
  | Thrown r => tick (Bot.log [CycleError email]) r
  end.

Definition cycle (env : Env) (chatId email : string)
    (resp : http mail) (attResp : mail -> http attachment) (w : World) : World :=
  now (checkEmailInbox env chatId email resp attResp w).

(** [/add (.+)] (lines 166-177). *)
Definition add_handler (env : Env) (chatId : string) (arg : string)
    (w : World) : World :=
  let email := trim arg in
  let w1 := Bot.update (Bot.ensureUser chatId) w in
  let w2 :=
    if bool_decide (email ∈ tracked (userData w1) chatId) then w1
    else Bot.saveData env (Bot.update (push chatId email) w1) in
  sendMessage env chatId (Reply (TrackingStarted email)) w2.

(** [/delete (.+)] (lines 180-189). *)
Definition delete_handler (env : Env) (chatId : string) (arg : string)
    (w : World) : World :=
  let email := trim arg in
  let w1 := Bot.update (Bot.ensureUser chatId) w in
  let w2 := Bot.update (drop_email chatId email) w1 in
  let w3 := Bot.saveData env w2 in
  sendMessage env chatId (Reply (Removed email)) w3.

(** [/import (.+)] (lines 228-240). *)
Definition import_handler (env : Env) (chatId : string) (arg : string)
    (w : World) : World :=
  let w1 := Bot.update (Bot.ensureUser chatId) w in
  let es := map trim (split_commas arg) in
  let '(ud, _) := import_loop chatId es (userData w1) in
  let w2 := Bot.update (fun _ => ud) w1 in
  let w3 := Bot.saveData env w2 in
  sendMessage env chatId (Reply (ImportedCount (length es))) w3.

End Bot2.

(** ** The keys and texts the embedding follows the code on *)

(** The property names every JavaScript object inherits from
    [Object.prototype]: read on an object that has no such property of its
    own, they give a function or an object, never [undefined]. *)
Definition inherited_names : list string :=
  ["constructor"; "__proto__"; "hasOwnProperty"; "isPrototypeOf";
   "propertyIsEnumerable"; "toLocaleString"; "toString"; "valueOf";
   "__defineGetter__"; "__defineSetter__"; "__lookupGetter__";
   "__lookupSetter__"].

Definition plain_key (k : string) : bool :=
  negb (bool_decide (k ∈ inherited_names)).

(** The polled address and the ids the provider reports for it are plain. *)
Definition plain_poll (email : string) (resp : http mail) : bool :=
  plain_key email &&
  forallb (fun m => plain_key (mail_id m)) (Bot.fetchEmailsForAddress email resp).1.

(** The same for every address of a list. *)
Definition plain_sweep (prov : string -> http mail) (l : list string) : bool :=
  forallb (fun e => plain_poll e (prov e)) l.

(** A text of ASCII characters only. *)
Definition ascii_only (s : string) : bool :=
  forallb (fun a => nat_of_ascii a <? 128) (list_ascii_of_string s).

(** ** Observations on the chronicle of sends *)

(** Is this sending the new-mail notice of message [id] of [email] to
    [chatId]? *)
Definition is_notice (chatId email id : string) (s : sending) : bool :=
  match text s with
  | NewEmail e _ _ i _ =>
      bool_decide (to s = chatId) && bool_decide (e = email) && bool_decide (i = id)
  | _ => false
  end.

(** How many new-mail notices of [id] the chronicle holds. *)
Fixpoint notified (chatId email id : string) (tr : list sending) : nat :=
  match tr with
  | [] => 0
  | s :: tr' =>
      (if is_notice chatId email id s then 1 else 0) + notified chatId email id tr'
  end.

(** What was sent to whom, whatever became of it. *)
Definition attempts (tr : list sending) : list (string * message) :=
  map (fun s => (to s, text s)) tr.

Definition ids (mails : list mail) : list string := map mail_id mails.

(** The seen-set stored for an address, if any. *)
Definition seen_entry (ud : UserData) (chatId email : string)
    : option (gmap string bool) :=
  match ud !! chatId with
  | Some u => seenEmails u !! email
  | None => None
  end.

Definition has_entry (ud : UserData) (chatId email : string) : Prop :=
  is_Some (seen_entry ud chatId email).

(** In the course of a cycle: idle between two messages, or busy with the
    message [id]. *)
Definition phase (Idle : World -> Prop) (Busy : string -> World -> Prop)
    (w : World) : Prop :=
  Idle w ∨ ∃ id, Busy id w.

(** Does [(c, e, i)] name a message of [ms] at the polled address? *)
Definition hits (chatId email : string) (ms : list mail) (c e i : string) : bool :=
  bool_decide (c = chatId ∧ e = email ∧ i ∈ ids ms).

(** ** The frame of a poll cycle *)

(** [ud'] differs from [ud] at most by new seen ids of [ms] at the polled
    address and by empty entries created for the polled user and address. *)
Definition framed (chatId email : string) (ms : list mail)
    (ud ud' : UserData) : Prop :=
  (∀ c e i, is_seen ud c e i = true → is_seen ud' c e i = true) ∧
  (∀ c, tracked ud' c = tracked ud c) ∧
  (∀ c, is_Some (ud !! c) → is_Some (ud' !! c)) ∧
  (∀ c, c ≠ chatId → ud' !! c = ud !! c) ∧
  (∀ c e, (c, e) ≠ (chatId, email) → seen_entry ud' c e = seen_entry ud c e) ∧
  (∀ c e i, is_seen ud' c e i = true →
            is_seen ud c e i = true ∨ (c = chatId ∧ e = email ∧ i ∈ ids ms)).

(** ** Ordering of the effects inside a cycle *)

(** Every id seen on disk is seen in memory: the case after a load or a
    successful save. *)
Definition disk_le_mem (w : World) : Prop :=
  ∀ c e i, seen_on_disk (disk w) c e i = true → is_seen (userData w) c e i = true.

(** No failing write leaves the file empty or partial: each one succeeds or
    fails before the file is opened. *)
Definition untorn (env : Env) : Prop :=
  ∀ k, write_ok env k = true ∨ torn env k = false.

(** The state of the marks at an instant [p] of a cycle started in [w], with
    [o] the id in flight, if any. *)
Definition marks_ok (env : Env) (chatId email : string) (w : World)
    (o : option string) (p : World) : Prop :=
  (∀ id, (notified chatId email id (sent w) < notified chatId email id (sent p))%nat →
         is_seen (userData p) chatId email id = true) ∧
  (disk_le_mem w → disk_le_mem p) ∧
  (untorn env → disk_le_mem w →
     ∀ c e i, seen_on_disk (disk w) c e i = true → seen_on_disk (disk p) c e i = true) ∧
  ((∀ k, write_ok env k = true) →
     ∀ c e i, is_seen (userData p) c e i = true →
       seen_on_disk (disk p) c e i = true ∨ is_seen (userData w) c e i = true ∨
       (c = chatId ∧ e = email ∧ o = Some i)).

(** ** A fetch that yields nothing *)

(** Two states with the same tracked lists and the same seen ids: they
    differ at most by empty entries. *)
Definition ud_sim (ud ud' : UserData) : Prop :=
  (∀ c, tracked ud c = tracked ud' c) ∧
  (∀ c e i, is_seen ud c e i = is_seen ud' c e i).

Definition file_sim (f f' : file) : Prop :=
  match f, f' with
  | Snapshot ud, Snapshot ud' => ud_sim ud ud'
  | NoFile, NoFile => True
  | Garbage, Garbage => True
  | _, _ => False
  end.

(** Two worlds with the same chronicle of sends, the same number of file
    writes, and memory and file alike up to empty entries. *)
Definition sim (w w' : World) : Prop :=
  ud_sim (userData w) (userData w') ∧ file_sim (disk w) (disk w') ∧
  sent w = sent w' ∧ writes w = writes w'.

(** ** The tracked list under the handlers *)

(** What the import loop appends to [l] when fed [es]. *)
Fixpoint fresh_of (l es : list string) : list string :=
  match es with
  | [] => []
  | e :: es' =>
      if bool_decide (e ∈ l) then fresh_of l es'
      else e :: fresh_of (l ++ [e]) es'
  end.

(** ** Delivery failures in bot.js *)

(** Same memory and same sends, whatever became of each send. *)
Definition same_attempts (w w' : World) : Prop :=
  userData w = userData w' ∧ attempts (sent w) = attempts (sent w').

(** ** The local part of a generated address *)

Definition is_base36 (a : ascii) : bool :=
  let n := nat_of_ascii a in
  ((48 <=? n) && (n <=? 57)) || ((97 <=? n) && (n <=? 122)).

Fixpoint all_base36 (s : string) : bool :=
  match s with
  | EmptyString => true
  | String a s' => is_base36 a && all_base36 s'
  end.

(** The part of an address before its first [@]. *)
Fixpoint local_part (s : string) : string :=
  match s with
  | EmptyString => EmptyString
  | String a s' => if Ascii.eqb a "@"%char then EmptyString else String a (local_part s')
  end.

(** ** Sample data *)

Definition all_fine : Env :=
  {| deliver := fun _ => true; write_ok := fun _ => true; torn := fun _ => false |}.

Definition no_attachments : mail -> http attachment := fun _ => HttpOk (BodyArray []).

Definition plain_mail (id : string) : mail :=
  {| mail_id := id; mail_from := None; mail_subject := None;
     mail_preview := None; mail_hasAttachments := false |}.

(** User 7 tracks [x@a.test] and has seen nothing yet. *)
Definition sample_world : World :=
  {| userData := {[ "7" := {| emails := ["x@a.test"]; seenEmails := ∅ |} ]};
     disk := NoFile; sent := []; writes := 0; console := [] |}.

(** A world in which nobody is known yet. *)
Definition empty_world : World :=
  {| userData := ∅; disk := NoFile; sent := []; writes := 0; console := [] |}.

(** User 7 tracks [x@a.test] and has been notified of its message 1. *)
Definition seen_world : World :=
  {| userData :=
       {[ "7" := {| emails := ["x@a.test"];
                    seenEmails := {[ "x@a.test" := {[ "1" := true ]} ]} |} ]};
     disk := NoFile; sent := []; writes := 0; console := [] |}.

(** User 7 tracks an address that the next draw will produce again. *)
Definition colliding_world : World :=
  {| userData := {[ "7" := {| emails := ["abcdefgh@a.test"]; seenEmails := ∅ |} ]};
     disk := NoFile; sent := []; writes := 0; console := [] |}.

(** The first delivery fails, the others succeed. *)
Definition first_send_fails : Env :=
  {| deliver := fun k => negb (Nat.eqb k 0); write_ok := fun _ => true;
     torn := fun _ => false |}.

Definition two_mails : http mail :=
  HttpOk (BodyArray [plain_mail "1"; plain_mail "2"]).

Definition notice (email id : string) : message :=
  NewEmail email "unknown" "(no subject)" id None.

Definition notice2 (email id : string) : message :=
  NewEmail email "Unknown" "(No subject)" id None.

(** ** What a cycle is expected to send *)

(** The messages of [ms] that a cycle treats as new, in the order of [ms]:
    those whose id is not seen and did not occur earlier in [ms]. *)
Fixpoint news (seen : string -> bool) (ms : list mail) : list mail :=
  match ms with
  | [] => []
  | m :: ms' =>
      if seen (mail_id m) then news seen ms'
      else m :: news (fun i => seen i || bool_decide (i = mail_id m)) ms'
  end.

(** What bot.js sends for one new message, in the order of sending: its
    notice, then, when the message says it has attachments, one note per
    attachment the provider returns for the address. *)
Definition sends_for (chatId email : string) (attResp : mail -> http attachment)
    (m : mail) : list (string * message) :=
  (chatId, Bot.compose email m) ::
  (if mail_hasAttachments m
   then map (fun a => (chatId, Bot.attachment_note a))
          (Bot.fetchAttachmentsForAddress email (attResp m)).1
   else []).

(** Does [(c, e, i)] name a message that the provider reports for an
    address of the list [l] swept for [chatId]? *)
Definition swept (chatId : string) (prov : string -> http mail)
    (l : list string) (c e i : string) : bool :=
  bool_decide (c = chatId ∧ e ∈ l ∧
               i ∈ ids (Bot.fetchEmailsForAddress e (prov e)).1).

(** A string that does not begin with white space. *)
Definition head_ok (l : list ascii) : Prop :=
  match l with
  | c :: _ => is_space c = false
  | [] => True
  end.

(** ** Observations on bot2.js *)

(** The run an outcome of bot2.js ends in. *)
Definition run_of (o : Bot2.outcome) : Run :=
  match o with
  | Bot2.Normal r => r
  | Bot2.Thrown r => r
  end.

(** The messages bot2.js iterates over in a response. *)
Definition items (b : body mail) : list mail :=
  match b with
  | BodyArray l => l
  | BodyText n => repeat Bot2.undefined_mail n
  | _ => []
  end.

(** [n] cycles of bot2.js in a row against the same provider response, the
    deliveries failing as [env] tells. *)
Definition bot2_cycles (env : Env) (chatId email : string)
    (resp : http mail) (attResp : mail -> http attachment) (n : nat)
    (w : World) : World :=
  Nat.iter n (Bot2.cycle env chatId email resp attResp) w.

(** From [w] to [w'] no mark was lost, every new mark is the id of a message
    of [ms] at the polled address, every id got at most one new notice, only
    if it is such an id and was not seen, and is seen if it got one. *)
Definition within (chatId email : string) (ms : list mail) (w w' : World) : Prop :=
  (∀ c e i, is_seen (userData w) c e i = true → is_seen (userData w') c e i = true) ∧
  (∀ c e i, is_seen (userData w') c e i = true →
            is_seen (userData w) c e i = true ∨ hits chatId email ms c e i = true) ∧
  (∀ c e i, notified c e i (sent w) ≤ notified c e i (sent w') ∧
            notified c e i (sent w') ≤
              notified c e i (sent w) +
              (if negb (is_seen (userData w) c e i) && hits chatId email ms c e i
               then 1 else 0)) ∧
  (∀ c e i, notified c e i (sent w) < notified c e i (sent w') →
            is_seen (userData w') c e i = true).

(** The handler only answered: [w'] is [w] with the reply [r] sent to
    [chatId], the user's empty record created if it was missing, and nothing
    else changed. *)
Definition only_answers (chatId : string) (r : reply) (w w' : World) : Prop :=
  userData w' = Bot.ensureUser chatId (userData w) ∧
  (∀ c, tracked (userData w') c = tracked (userData w) c) ∧
  (∀ c e, seen_entry (userData w') c e = seen_entry (userData w) c e) ∧
  disk w' = disk w ∧ writes w' = writes w ∧
  attempts (sent w') = (chatId, Reply r) :: attempts (sent w).

(** Two worlds that agree on memory, file, number of writes, number of
    sends and number of notices of every message: they may differ by the
    wording of what was sent and by the console. *)
Definition agree (w w' : World) : Prop :=
  userData w = userData w' ∧ disk w = disk w' ∧ writes w = writes w' ∧
  length (sent w) = length (sent w') ∧
  ∀ c e i, notified c e i (sent w) = notified c e i (sent w').

(** * Properties *)

(** ** Elementary facts about the state operations *)

Section StateFacts.
Import Bot.
Implicit Types (ud : UserData) (c e i : string).

Lemma is_seen_entry ud c e i :
  is_seen ud c e i =
    match seen_entry ud c e with Some s => truthy (s !! i) | None => false end.
Proof. unfold is_seen, seen_entry. by destruct (ud !! c). Qed.

Lemma ensureUser_other c c' ud : c' ≠ c → ensureUser c ud !! c' = ud !! c'.
Proof.
  intros Hne. unfold ensureUser. destruct (ud !! c); [done|].
  by rewrite lookup_insert_ne.
Qed.

Lemma ensureUser_is_Some c ud : is_Some (ensureUser c ud !! c).
Proof.
  unfold ensureUser. destruct (ud !! c) eqn:E; [by rewrite E|].
  rewrite lookup_insert_eq. eauto.
Qed.

Lemma ensureUser_known c ud u : ud !! c = Some u → ensureUser c ud = ud.
Proof. intros H. unfold ensureUser. by rewrite H. Qed.

Lemma seen_entry_ensureUser c ud c' e :
  seen_entry (ensureUser c ud) c' e = seen_entry ud c' e.
Proof.
  unfold seen_entry, ensureUser. destruct (ud !! c) eqn:E; [done|].
  destruct (decide (c' = c)) as [->|Hne].
  - by rewrite lookup_insert_eq, E.
  - by rewrite lookup_insert_ne.
Qed.

Lemma tracked_ensureUser c ud c' : tracked (ensureUser c ud) c' = tracked ud c'.
Proof.
  unfold tracked, ensureUser. destruct (ud !! c) eqn:E; [done|].
  destruct (decide (c' = c)) as [->|Hne].
  - by rewrite lookup_insert_eq, E.
  - by rewrite lookup_insert_ne.
Qed.

Lemma is_seen_ensureUser c ud c' e i :
  is_seen (ensureUser c ud) c' e i = is_seen ud c' e i.
Proof. by rewrite !is_seen_entry, seen_entry_ensureUser. Qed.

Lemma ensure_seen_other c e ud c' : c' ≠ c → ensure_seen c e ud !! c' = ud !! c'.
Proof. intros Hne. unfold ensure_seen. by rewrite lookup_alter_ne. Qed.

Lemma seen_entry_ensure_seen_ne c e ud c' e' :
  (c', e') ≠ (c, e) → seen_entry (ensure_seen c e ud) c' e' = seen_entry ud c' e'.
Proof.
  intros Hne. unfold seen_entry, ensure_seen.
  destruct (decide (c' = c)) as [->|Hc]; [|by rewrite lookup_alter_ne].
  rewrite lookup_alter_eq. destruct (ud !! c) as [u|]; [simpl|done].
  destruct (seenEmails u !! e); [done|]. simpl.
  rewrite lookup_insert_ne; [done|]. congruence.
Qed.

Lemma seen_entry_ensure_seen_eq c e ud :
  is_Some (ud !! c) →
  seen_entry (ensure_seen c e ud) c e =
    Some (default ∅ (seen_entry ud c e)).
Proof.
  intros [u Hu]. unfold seen_entry, ensure_seen.
  rewrite lookup_alter_eq, Hu. simpl.
  destruct (seenEmails u !! e) eqn:E; simpl; [done|].
  by rewrite lookup_insert_eq.
Qed.

Lemma tracked_ensure_seen c e ud c' : tracked (ensure_seen c e ud) c' = tracked ud c'.
Proof.
  unfold tracked, ensure_seen.
  destruct (decide (c' = c)) as [->|Hc]; [|by rewrite lookup_alter_ne].
  rewrite lookup_alter_eq. destruct (ud !! c) as [u|]; [simpl|done].
  by destruct (seenEmails u !! e).
Qed.

Lemma is_seen_ensure_seen c e ud c' e' i :
  is_seen (ensure_seen c e ud) c' e' i = is_seen ud c' e' i.
Proof.
  destruct (decide ((c', e') = (c, e))) as [Heq|Hne].
  - injection Heq as -> ->. unfold is_seen, ensure_seen.
    rewrite lookup_alter_eq. destruct (ud !! c) as [u|]; [simpl|done].
    destruct (seenEmails u !! e) eqn:E; [by rewrite E|]. simpl.
    by rewrite lookup_insert_eq, lookup_empty.
  - by rewrite !is_seen_entry, seen_entry_ensure_seen_ne.
Qed.

Lemma has_entry_ensure_seen c e ud :
  is_Some (ud !! c) → has_entry (ensure_seen c e ud) c e.
Proof. intros H. unfold has_entry. rewrite seen_entry_ensure_seen_eq; eauto. Qed.

Lemma mark_seen_other c e i ud c' : c' ≠ c → mark_seen c e i ud !! c' = ud !! c'.
Proof. intros Hne. unfold mark_seen. by rewrite lookup_alter_ne. Qed.

Lemma seen_entry_mark_seen_ne c e i ud c' e' :
  (c', e') ≠ (c, e) → seen_entry (mark_seen c e i ud) c' e' = seen_entry ud c' e'.
Proof.
  intros Hne. unfold seen_entry, mark_seen.
  destruct (decide (c' = c)) as [->|Hc]; [|by rewrite lookup_alter_ne].
  rewrite lookup_alter_eq. destruct (ud !! c) as [u|]; [simpl|done].
  rewrite lookup_alter_ne; [done|]. congruence.
Qed.

Lemma seen_entry_mark_seen_eq c e i ud :
  seen_entry (mark_seen c e i ud) c e = <[i := true]> <$> seen_entry ud c e.
Proof.
  unfold seen_entry, mark_seen. rewrite lookup_alter_eq.
  destruct (ud !! c) as [u|]; [simpl|done]. by rewrite lookup_alter_eq.
Qed.

Lemma tracked_mark_seen c e i ud c' : tracked (mark_seen c e i ud) c' = tracked ud c'.
Proof.
  unfold tracked, mark_seen.
  destruct (decide (c' = c)) as [->|Hc]; [|by rewrite lookup_alter_ne].
  rewrite lookup_alter_eq. by destruct (ud !! c).
Qed.

Lemma has_entry_mark_seen c e i ud c' e' :
  has_entry ud c' e' → has_entry (mark_seen c e i ud) c' e'.
Proof.
  unfold has_entry. intros H.
  destruct (decide ((c', e') = (c, e))) as [Heq|Hne].
  - injection Heq as -> ->. rewrite seen_entry_mark_seen_eq.
    destruct H as [s ->]. simpl. eauto.
  - by rewrite seen_entry_mark_seen_ne.
Qed.

(** Marking adds exactly one id, provided the seen-set is there. *)
Lemma is_seen_mark_seen c e i ud c' e' i' :
  has_entry ud c e →
  is_seen (mark_seen c e i ud) c' e' i' =
    is_seen ud c' e' i' || bool_decide (c' = c ∧ e' = e ∧ i' = i).
Proof.
  intros [s Hs]. rewrite !is_seen_entry.
  destruct (decide ((c', e') = (c, e))) as [Heq|Hne].
  - injection Heq as -> ->. rewrite seen_entry_mark_seen_eq, Hs. simpl.
    destruct (decide (i' = i)) as [->|Hi].
    + rewrite lookup_insert_eq. simpl.
      rewrite bool_decide_eq_true_2; [by rewrite orb_true_r|done].
    + rewrite lookup_insert_ne by done.
      rewrite bool_decide_eq_false_2; [by rewrite orb_false_r|].
      by intros (_ & _ & ?).
  - rewrite seen_entry_mark_seen_ne by done.
    rewrite bool_decide_eq_false_2; [by rewrite orb_false_r|].
    intros (-> & -> & _). done.
Qed.

End StateFacts.

(** ** A proof rule for the poll cycle

  Between two messages the cycle is idle; from the moment a new message is
  marked until the state is saved that message is in flight.  A pair of
  predicates that every effect of the cycle carries along in this way holds
  at every instant of the cycle, and the idle one holds when it ends. *)

Section CycleRule.
Import Bot.
Variables (env : Env) (chatId email : string).
Variable attResp : mail -> http attachment.
Variable mails : list mail.
Variable Idle : World -> Prop.
Variable Busy : string -> World -> Prop.

Hypothesis idle_user : ∀ w, Idle w → Idle (update (ensureUser chatId) w).
Hypothesis idle_log : ∀ ls w, Idle w → Idle (log ls w).
Hypothesis idle_entry :
  ∀ w, is_Some (userData w !! chatId) → Idle w →
       Idle (update (ensure_seen chatId email) w).
Hypothesis idle_mark :
  ∀ w m, m ∈ mails → has_entry (userData w) chatId email →
         is_seen (userData w) chatId email (mail_id m) = false → Idle w →
         Busy (mail_id m) (update (mark_seen chatId email (mail_id m)) w).
Hypothesis busy_notice :
  ∀ w m, is_seen (userData w) chatId email (mail_id m) = true →
         Busy (mail_id m) w →
         Busy (mail_id m) (sendTelegram env chatId (compose email m) w).
Hypothesis busy_log : ∀ id ls w, Busy id w → Busy id (log ls w).
Hypothesis busy_attachment :
  ∀ id a w, Busy id w → Busy id (sendTelegram env chatId (attachment_note a) w).
Hypothesis busy_save : ∀ id w, Busy id w → Idle (saveData env w).

Lemma userData_send_attachments atts r :
  userData (now (send_attachments env chatId atts r)) = userData (now r).
Proof.
  unfold send_attachments. revert r.
  induction atts as [|a atts IH]; intros r; [done|].
  simpl. by rewrite IH.
Qed.

Lemma send_attachments_rule id atts r :
  Busy id (now r) → Forall (phase Idle Busy) (points r) →
  Busy id (now (send_attachments env chatId atts r)) ∧
  Forall (phase Idle Busy) (points (send_attachments env chatId atts r)).
Proof.
  unfold send_attachments. revert r.
  induction atts as [|a atts IH]; intros r Hb Hp; [done|].
  simpl. apply IH.
  - simpl. by apply busy_attachment.
  - apply Forall_cons. split; [|done]. right. exists id.
    simpl. by apply busy_attachment.
Qed.

Lemma process_mail_rule r m :
  m ∈ mails → has_entry (userData (now r)) chatId email →
  Idle (now r) → Forall (phase Idle Busy) (points r) →
  has_entry (userData (now (process_mail env chatId email attResp r m))) chatId email ∧
  Idle (now (process_mail env chatId email attResp r m)) ∧
  Forall (phase Idle Busy) (points (process_mail env chatId email attResp r m)).
Proof.
  intros Hm He Hi Hp. unfold process_mail.
  destruct (is_seen (userData (now r)) chatId email (mail_id m)) eqn:Hseen; [done|].
  set (r1 := tick (update (mark_seen chatId email (mail_id m))) r).
  set (r2 := tick (sendTelegram env chatId (compose email m)) r1).
  assert (Hb1 : Busy (mail_id m) (now r1)) by (by apply idle_mark).
  assert (He1 : has_entry (userData (now r1)) chatId email)
    by (by apply has_entry_mark_seen).
  assert (Hp1 : Forall (phase Idle Busy) (points r1)).
  { apply Forall_cons. split; [right; eauto|done]. }
  assert (Hb2 : Busy (mail_id m) (now r2)).
  { apply busy_notice; [|done]. simpl.
    rewrite is_seen_mark_seen by done.
    rewrite bool_decide_eq_true_2; [by rewrite orb_true_r|done]. }
  assert (Hp2 : Forall (phase Idle Busy) (points r2)).
  { apply Forall_cons. split; [right; eauto|done]. }
  assert (∃ r3, (if mail_hasAttachments m
                 then let '(atts, errs) := fetchAttachmentsForAddress email (attResp m) in
                      send_attachments env chatId atts (tick (log errs) r2)
                 else r2) = r3 ∧
                userData (now r3) = userData (now r1) ∧
                Busy (mail_id m) (now r3) ∧ Forall (phase Idle Busy) (points r3))
    as (r3 & -> & Hu3 & Hb3 & Hp3).
  { destruct (mail_hasAttachments m); [|by exists r2].
    destruct (fetchAttachmentsForAddress email (attResp m)) as [atts errs].
    eexists; split; [done|]. split; [by rewrite userData_send_attachments|].
    apply send_attachments_rule.
    - simpl. by apply busy_log.
    - apply Forall_cons. split; [|done]. right. exists (mail_id m).
      simpl. by apply busy_log. }
  split; [|split].
  - simpl. unfold saveData. destruct (write_ok env _); simpl; by rewrite Hu3.
  - simpl. by eapply busy_save.
  - apply Forall_cons. split; [|done]. left. simpl. by eapply busy_save.
Qed.

Lemma process_mails_rule ms r :
  ms ⊆ mails → has_entry (userData (now r)) chatId email →
  Idle (now r) → Forall (phase Idle Busy) (points r) →
  Idle (now (fold_left (process_mail env chatId email attResp) ms r)) ∧
  Forall (phase Idle Busy) (points (fold_left (process_mail env chatId email attResp) ms r)).
Proof.
  revert r. induction ms as [|m ms IH]; intros r Hsub He Hi Hp; [done|].
  simpl.
  destruct (process_mail_rule r m) as (He' & Hi' & Hp'); try done.
  { apply Hsub. by left. }
  apply IH; try done. intros x Hx. apply Hsub. by right.
Qed.

Lemma cycle_rule resp w :
  mails = (fetchEmailsForAddress email resp).1 →
  Idle w →
  Idle (cycle env chatId email resp attResp w) ∧
  Forall (phase Idle Busy) (points (checkEmailInbox env chatId email resp attResp w)).
Proof.
  intros Hmails Hi. unfold cycle, checkEmailInbox.
  destruct (fetchEmailsForAddress email resp) as [ms errs]. simpl in Hmails.
  subst ms.
  assert (Hu : is_Some (ensureUser chatId (userData w) !! chatId))
    by apply ensureUser_is_Some.
  apply process_mails_rule; [done|..].
  - simpl. by apply has_entry_ensure_seen.
  - simpl. apply idle_entry; [done|]. apply idle_log. by apply idle_user.
  - unfold points. simpl.
    repeat apply Forall_cons_2; [..|apply Forall_nil_2]; left.
    + simpl. apply idle_entry; [done|]. apply idle_log. by apply idle_user.
    + simpl. apply (idle_log errs). by apply idle_user.
    + simpl. by apply idle_user.
    + simpl. done.
Qed.

End CycleRule.

(** ** What one poll cycle computes *)

Section CycleFacts.
Import Bot.
Variables (env : Env) (chatId email : string).
Variable attResp : mail -> http attachment.

Lemma hits_nil c e i : hits chatId email [] c e i = false.
Proof.
  unfold hits. apply bool_decide_eq_false_2. intros (_ & _ & H).
  by apply elem_of_nil in H.
Qed.

Lemma hits_cons m ms c e i :
  hits chatId email (m :: ms) c e i =
    bool_decide (c = chatId ∧ e = email ∧ i = mail_id m) || hits chatId email ms c e i.
Proof.
  unfold hits, ids. simpl.
  apply eq_true_iff_eq. rewrite orb_true_iff, !bool_decide_eq_true.
  rewrite elem_of_cons. tauto.
Qed.

Lemma sent_send_attachments atts r c e i :
  notified c e i (sent (now (send_attachments env chatId atts r))) =
  notified c e i (sent (now r)).
Proof.
  unfold send_attachments. revert r.
  induction atts as [|a atts IH]; intros r; [done|].
  simpl. by rewrite IH.
Qed.

Lemma process_mail_now r m :
  has_entry (userData (now r)) chatId email →
  let r' := process_mail env chatId email attResp r m in
  has_entry (userData (now r')) chatId email ∧
  (∀ c e i, is_seen (userData (now r')) c e i =
            is_seen (userData (now r)) c e i ||
            bool_decide (c = chatId ∧ e = email ∧ i = mail_id m)) ∧
  (∀ c e i, notified c e i (sent (now r')) =
            notified c e i (sent (now r)) +
            (if negb (is_seen (userData (now r)) c e i) &&
                bool_decide (c = chatId ∧ e = email ∧ i = mail_id m)
             then 1 else 0)).
Proof.
  intros He. unfold process_mail.
  destruct (is_seen (userData (now r)) chatId email (mail_id m)) eqn:Hseen; simpl.
  - split; [done|]. split; intros c e i; case_bool_decide as Hd.
    + destruct Hd as (-> & -> & ->). by rewrite Hseen.
    + by rewrite orb_false_r.
    + destruct Hd as (-> & -> & ->). rewrite Hseen. simpl. lia.
    + rewrite andb_false_r. lia.
  - set (r2 := tick (sendTelegram env chatId (compose email m))
                 (tick (update (mark_seen chatId email (mail_id m))) r)).
    assert (∃ r3, (if mail_hasAttachments m
                   then let '(atts, errs) := fetchAttachmentsForAddress email (attResp m) in
                        send_attachments env chatId atts (tick (log errs) r2)
                   else r2) = r3 ∧
                  userData (now r3) = userData (now r2) ∧
                  ∀ c e i, notified c e i (sent (now r3)) =
                           notified c e i (sent (now r2)))
      as (r3 & -> & Hu3 & Hn3).
    { destruct (mail_hasAttachments m); [|by exists r2].
      destruct (fetchAttachmentsForAddress email (attResp m)) as [atts errs].
      eexists; split; [done|]. split.
      - by rewrite userData_send_attachments.
      - intros c e i. by rewrite sent_send_attachments. }
    assert (Hu : userData (saveData env (now r3)) =
                 mark_seen chatId email (mail_id m) (userData (now r))).
    { unfold saveData. destruct (write_ok env _); simpl; by rewrite Hu3. }
    assert (Hs : sent (saveData env (now r3)) = sent (now r3)).
    { unfold saveData. by destruct (write_ok env _). }
    rewrite Hu, Hs. split; [by apply has_entry_mark_seen|]. split; intros c e i.
    + by apply is_seen_mark_seen.
    + rewrite Hn3. simpl.
      assert (Hn : is_notice c e i
                {| to := chatId; text := compose email m;
                   delivered := deliver env (length (sent (now r))) |} =
                bool_decide (c = chatId ∧ e = email ∧ i = mail_id m)).
      { unfold is_notice, compose. simpl.
        apply eq_true_iff_eq. rewrite !andb_true_iff, !bool_decide_eq_true.
        intuition congruence. }
      rewrite Hn. case_bool_decide as Hd.
      * destruct Hd as (-> & -> & ->). rewrite Hseen. simpl. lia.
      * rewrite andb_false_r. lia.
Qed.

Lemma process_mails_now ms r :
  has_entry (userData (now r)) chatId email →
  let r' := fold_left (process_mail env chatId email attResp) ms r in
  has_entry (userData (now r')) chatId email ∧
  (∀ c e i, is_seen (userData (now r')) c e i =
            is_seen (userData (now r)) c e i || hits chatId email ms c e i) ∧
  (∀ c e i, notified c e i (sent (now r')) =
            notified c e i (sent (now r)) +
            (if negb (is_seen (userData (now r)) c e i) && hits chatId email ms c e i
             then 1 else 0)).
Proof.
  revert r. induction ms as [|m ms IH]; intros r He; simpl.
  - split; [done|]. split; intros c e i; rewrite hits_nil.
    + by rewrite orb_false_r.
    + rewrite andb_false_r. lia.
  - destruct (process_mail_now r m He) as (He1 & Hs1 & Hn1).
    destruct (IH _ He1) as (He2 & Hs2 & Hn2).
    split; [done|]. split; intros c e i; rewrite hits_cons.
    + rewrite Hs2, Hs1. by rewrite orb_assoc.
    + rewrite Hn2, Hn1, Hs1.
      destruct (is_seen (userData (now r)) c e i),
               (bool_decide (c = chatId ∧ e = email ∧ i = mail_id m)),
               (hits chatId email ms c e i); simpl; lia.
Qed.

(** The seen ids and the notices after one cycle. *)
Lemma cycle_now resp w :
  let ms := (fetchEmailsForAddress email resp).1 in
  let w' := cycle env chatId email resp attResp w in
  (∀ c e i, is_seen (userData w') c e i =
            is_seen (userData w) c e i || hits chatId email ms c e i) ∧
  (∀ c e i, notified c e i (sent w') =
            notified c e i (sent w) +
            (if negb (is_seen (userData w) c e i) && hits chatId email ms c e i
             then 1 else 0)).
Proof.
  unfold cycle, checkEmailInbox.
  destruct (fetchEmailsForAddress email resp) as [ms errs]. simpl.
  set (r2 := tick _ _).
  assert (He : has_entry (userData (now r2)) chatId email).
  { simpl. apply has_entry_ensure_seen, ensureUser_is_Some. }
  destruct (process_mails_now ms r2 He) as (_ & Hs & Hn).
  split; intros c e i.
  - rewrite Hs. simpl. by rewrite is_seen_ensure_seen, is_seen_ensureUser.
  - rewrite Hn. simpl. by rewrite is_seen_ensure_seen, is_seen_ensureUser.
Qed.

End CycleFacts.

(** ** At-most-once notification *)

Section Repeated.
Import Bot.
Variables (env : Env) (chatId email : string).
Variable resp : http mail.
Variable attResp : mail -> http attachment.

Lemma cycles_now n w :
  let ms := (fetchEmailsForAddress email resp).1 in
  let w' := cycles env chatId email resp attResp n w in
  (∀ c e i, is_seen (userData w') c e i =
            is_seen (userData w) c e i ||
            (negb (Nat.eqb n 0) && hits chatId email ms c e i)) ∧
  (∀ c e i, notified c e i (sent w') =
            notified c e i (sent w) +
            (if negb (Nat.eqb n 0) && negb (is_seen (userData w) c e i) &&
                hits chatId email ms c e i
             then 1 else 0)).
Proof.
  induction n as [|n [IHs IHn]]; simpl.
  - split; intros c e i; [by rewrite orb_false_r | lia].
  - destruct (cycle_now env chatId email attResp resp
                (cycles env chatId email resp attResp n w)) as [Hs Hn].
    fold (cycles env chatId email resp attResp n w).
    split; intros c e i.
    + rewrite Hs, IHs.
      destruct (is_seen (userData w) c e i), (Nat.eqb n 0),
               (hits chatId email _ c e i); done.
    + rewrite Hn, IHn, IHs.
      destruct (is_seen (userData w) c e i), (Nat.eqb n 0),
               (hits chatId email _ c e i); simpl; lia.
Qed.

End Repeated.

(** C1.  Whatever the number [n >= 1] of poll cycles run for a user and an
    address against a fixed provider message list, the address and the ids
    of the list being plain keys, the notices sent for a message id are:
    exactly one more than before when the id is in the list and was not in
    the seen-set, and none when it is not in the list or was already in the
    seen-set. *)
Theorem at_most_once_notification :
  ∀ (env : Env) (chatId email : string) (resp : http mail)
    (attResp : mail -> http attachment) (n : nat) (w : World) (id : string),
    (1 ≤ n)%nat →
    plain_poll email resp = true →
    notified chatId email id
      (sent (Bot.cycles env chatId email resp attResp n w)) =
    notified chatId email id (sent w) +
    (if negb (is_seen (userData w) chatId email id) &&
        bool_decide (id ∈ ids (Bot.fetchEmailsForAddress email resp).1)
     then 1 else 0).
Proof.
  intros env chatId email resp attResp n w id Hn _.
  destruct (cycles_now env chatId email resp attResp n w) as [_ H].
  rewrite H. destruct n as [|n]; [lia|]. simpl.
  unfold hits.
  destruct (is_seen (userData w) chatId email id); simpl; [done|].
  assert (E : bool_decide (chatId = chatId ∧ email = email ∧
                 id ∈ ids (Bot.fetchEmailsForAddress email resp).1) =
              bool_decide (id ∈ ids (Bot.fetchEmailsForAddress email resp).1)).
  { apply eq_true_iff_eq. rewrite !bool_decide_eq_true. tauto. }
  by rewrite E.
Qed.

Section Frame.
Import Bot.
Variables (chatId email : string) (ms : list mail).

Lemma framed_refl ud : framed chatId email ms ud ud.
Proof. repeat split; auto. Qed.

Lemma framed_trans ud1 ud2 ud3 :
  framed chatId email ms ud1 ud2 → framed chatId email ms ud2 ud3 →
  framed chatId email ms ud1 ud3.
Proof.
  intros (A1 & A2 & A3 & A4 & A5 & A6) (B1 & B2 & B3 & B4 & B5 & B6).
  repeat split.
  - auto.
  - intros c. by rewrite B2.
  - auto.
  - intros c Hc. by rewrite B4, A4.
  - intros c e Hne. by rewrite B5, A5.
  - intros c e i H. destruct (B6 _ _ _ H) as [H'|H']; auto.
Qed.

Lemma framed_ensureUser ud : framed chatId email ms ud (ensureUser chatId ud).
Proof.
  repeat split.
  - intros c e i. by rewrite is_seen_ensureUser.
  - intros c. apply tracked_ensureUser.
  - intros c [u Hu]. destruct (decide (c = chatId)) as [->|Hne].
    + apply ensureUser_is_Some.
    + rewrite ensureUser_other by done. eauto.
  - intros c Hne. by apply ensureUser_other.
  - intros c e _. apply seen_entry_ensureUser.
  - intros c e i. rewrite is_seen_ensureUser. auto.
Qed.

Lemma framed_ensure_seen ud :
  framed chatId email ms ud (ensure_seen chatId email ud).
Proof.
  repeat split.
  - intros c e i. by rewrite is_seen_ensure_seen.
  - intros c. apply tracked_ensure_seen.
  - intros c [u Hu]. unfold ensure_seen.
    destruct (decide (c = chatId)) as [->|Hne].
    + rewrite lookup_alter_eq, Hu. simpl. eauto.
    + rewrite lookup_alter_ne by done. eauto.
  - intros c Hne. by apply ensure_seen_other.
  - intros c e Hne. by apply seen_entry_ensure_seen_ne.
  - intros c e i. rewrite is_seen_ensure_seen. auto.
Qed.

Lemma framed_mark_seen ud m :
  m ∈ ms → has_entry ud chatId email →
  framed chatId email ms ud (mark_seen chatId email (mail_id m) ud).
Proof.
  intros Hm He. repeat split.
  - intros c e i H. rewrite is_seen_mark_seen by done. by rewrite H.
  - intros c. apply tracked_mark_seen.
  - intros c [u Hu]. unfold mark_seen.
    destruct (decide (c = chatId)) as [->|Hne].
    + rewrite lookup_alter_eq, Hu. simpl. eauto.
    + rewrite lookup_alter_ne by done. eauto.
  - intros c Hne. by apply mark_seen_other.
  - intros c e Hne. by apply seen_entry_mark_seen_ne.
  - intros c e i. rewrite is_seen_mark_seen by done.
    rewrite orb_true_iff, bool_decide_eq_true.
    intros [H|(-> & -> & ->)]; [by left|right].
    repeat split. unfold ids. by apply list_elem_of_fmap_2.
Qed.

End Frame.

(** C10.  At every instant of a poll cycle for one user and address, the
    address and the fetched ids being plain keys, and so when it ends: no
    seen id has been removed anywhere, every tracked list is what it was, no
    known user has disappeared, every other user and every other address of
    the same user is untouched, and every id seen now that was not seen
    before is the id of a fetched message at the polled address. *)
Theorem poll_cycle_frame :
  ∀ (env : Env) (chatId email : string) (resp : http mail)
    (attResp : mail -> http attachment) (w : World),
    plain_poll email resp = true →
    Forall
      (fun p => framed chatId email (Bot.fetchEmailsForAddress email resp).1
                  (userData w) (userData p))
      (points (Bot.checkEmailInbox env chatId email resp attResp w)).
Proof.
  intros env chatId email resp attResp w _.
  set (ms := (Bot.fetchEmailsForAddress email resp).1).
  set (I := fun p : World => framed chatId email ms (userData w) (userData p)).
  destruct (cycle_rule env chatId email attResp ms I (fun _ => I)) with (resp := resp) (w := w)
    as [_ H]; try done; unfold I; simpl.
  - intros p Hp. eapply framed_trans; [done|]. apply framed_ensureUser.
  - intros p _ Hp. eapply framed_trans; [done|]. apply framed_ensure_seen.
  - intros p m Hm He _ Hp. eapply framed_trans; [done|]. by apply framed_mark_seen.
  - intros _ p. unfold Bot.saveData. by destruct (write_ok env _).
  - apply framed_refl.
  - eapply Forall_impl; [done|]. intros p [Hp|[_ Hp]]; done.
Qed.

Section Ordering.
Import Bot.
Variables (env : Env) (chatId email : string) (w : World).



Lemma marks_ok_log ls o p :
  marks_ok env chatId email w o p → marks_ok env chatId email w o (log ls p).
Proof. done. Qed.

Lemma marks_ok_attachment a o p :
  marks_ok env chatId email w o p →
  marks_ok env chatId email w o (sendTelegram env chatId (attachment_note a) p).
Proof. done. Qed.




(** With writes that succeed, the cycle ends on a disk that holds the whole
    of memory, unless it met no new message and wrote nothing. *)
Lemma process_mails_snapshot attResp ms r :
  (∀ k, write_ok env k = true) →
  let r' := fold_left (process_mail env chatId email attResp) ms r in
  disk (now r') = Snapshot (userData (now r')) ∨
  (disk (now r') = disk (now r) ∧ userData (now r') = userData (now r) ∧
   writes (now r') = writes (now r)).
Proof.
  intros Hw. revert r. induction ms as [|m ms IH]; intros r; simpl; [by right|].
  set (r1 := process_mail env chatId email attResp r m).
  assert (H1 : disk (now r1) = Snapshot (userData (now r1)) ∨ r1 = r).
  { unfold r1, process_mail.
    destruct (is_seen (userData (now r)) chatId email (mail_id m)); [by right|].
    left. simpl. unfold saveData. by rewrite Hw. }
  destruct (IH r1) as [H|(Hd & Hu & Hn)]; [by left|].
  destruct H1 as [H1| ->]; [left|right; done].
  by rewrite Hd, Hu.
Qed.

Lemma cycle_snapshot resp attResp :
  (∀ k, write_ok env k = true) →
  let w' := cycle env chatId email resp attResp w in
  disk w' = Snapshot (userData w') ∨
  (disk w' = disk w ∧ writes w' = writes w ∧
   ∀ c e i, is_seen (userData w') c e i = is_seen (userData w) c e i).
Proof.
  intros Hw. unfold cycle, checkEmailInbox.
  destruct (fetchEmailsForAddress email resp) as [ms errs].
  set (r2 := tick _ _).
  destruct (process_mails_snapshot attResp ms r2 Hw)
    as [H|(Hd & Hu & Hn)]; [by left|right].
  rewrite Hd, Hu, Hn. simpl. repeat split.
  intros c e i. by rewrite is_seen_ensure_seen, is_seen_ensureUser.
Qed.

End Ordering.


(** ** Persistence across a restart *)

(** C9.  A successful save followed by the load at startup gives back the
    state that was saved, whatever the memory holds when the load runs.  And
    when a poll cycle at a plain address marks [m1] (a fetched message not
    seen before) with file writes that succeed, a process restarted on the
    file the cycle left, whatever its memory, loads the state the cycle
    ended in, [m1] is seen in it, and a further cycle against the same
    provider response sends no notice for [m1]. *)
Theorem seen_set_survives_restart :
  ∀ (env env' : Env) (chatId email : string) (resp : http mail)
    (attResp attResp' : mail -> http attachment) (w v : World) (m1 : string),
    (∀ k, write_ok env k = true) →
    plain_poll email resp = true →
    m1 ∈ ids (Bot.fetchEmailsForAddress email resp).1 →
    is_seen (userData w) chatId email m1 = false →
    let w1 := Bot.cycle env chatId email resp attResp w in
    disk v = disk w1 →
    let w2 := Bot.load v in
    let w3 := Bot.cycle env' chatId email resp attResp' w2 in
    (∀ u u', disk u' = disk (Bot.saveData env u) →
             userData (Bot.load u') = userData u) ∧
    userData w2 = userData w1 ∧
    is_seen (userData w2) chatId email m1 = true ∧
    notified chatId email m1 (sent w3) = notified chatId email m1 (sent v).
Proof.
  intros env env' chatId email resp attResp attResp' w v m1 Hw _ Hin Hnew
    w1 Hv w2 w3.
  destruct (cycle_now env chatId email attResp resp w) as [Hs _].
  fold w1 in Hs.
  assert (Hseen1 : is_seen (userData w1) chatId email m1 = true).
  { rewrite Hs, Hnew. simpl. unfold hits. by apply bool_decide_eq_true_2. }
  assert (Hdisk : disk w1 = Snapshot (userData w1)).
  { destruct (cycle_snapshot env chatId email w resp attResp Hw)
      as [H1|(_ & _ & H1)]; [done|].
    unfold w1 in Hseen1. rewrite H1 in Hseen1. congruence. }
  assert (Hload : userData w2 = userData w1).
  { unfold w2, Bot.load. by rewrite Hv, Hdisk. }
  split; [|split; [done|split]].
  - intros u u' Hu. unfold Bot.load. rewrite Hu. unfold Bot.saveData.
    by rewrite Hw.
  - by rewrite Hload.
  - destruct (cycle_now env' chatId email attResp' resp w2) as [_ Hn].
    fold w3 in Hn. rewrite Hn, Hload, Hseen1. simpl.
    unfold w2, Bot.load. rewrite Hv, Hdisk. simpl. lia.
Qed.

Section Sim.
Import Bot.
Variables (env : Env) (chatId : string).

Lemma ud_sim_refl ud : ud_sim ud ud.
Proof. by split. Qed.

Lemma ud_sim_trans ud1 ud2 ud3 : ud_sim ud1 ud2 → ud_sim ud2 ud3 → ud_sim ud1 ud3.
Proof.
  intros [A1 A2] [B1 B2]. split.
  - intros c. by rewrite A1.
  - intros c e i. by rewrite A2.
Qed.

Lemma sim_refl w : sim w w.
Proof.
  repeat split; try done. by destruct (disk w).
Qed.

Lemma sim_trans w1 w2 w3 : sim w1 w2 → sim w2 w3 → sim w1 w3.
Proof.
  intros (A1 & A2 & A3 & A4) (B1 & B2 & B3 & B4). repeat split.
  - by apply (ud_sim_trans _ _ _ A1).
  - by apply (ud_sim_trans _ _ _ A1).
  - destruct (disk w1), (disk w2), (disk w3); simpl in *; try done.
    by apply (ud_sim_trans _ _ _ A2).
  - congruence.
  - congruence.
Qed.













Lemma poll_list_cons prov attProv e l w :
  poll_list env chatId prov attProv (e :: l) w =
  poll_list env chatId prov attProv l
    (cycle env chatId e (prov e) (attProv e) w).
Proof. done. Qed.



End Sim.



Section Tracked.
Import Bot.
Implicit Types (ud : UserData) (c e : string) (l es : list string).

Lemma tracked_push c e ud :
  is_Some (ud !! c) → tracked (push c e ud) c = tracked ud c ++ [e].
Proof.
  intros [u Hu]. unfold tracked, push. by rewrite lookup_alter_eq, Hu.
Qed.

Lemma tracked_push_other c e ud c' : c' ≠ c → tracked (push c e ud) c' = tracked ud c'.
Proof. intros H. unfold tracked, push. by rewrite lookup_alter_ne. Qed.

Lemma push_is_Some c e ud c' : is_Some (ud !! c') → is_Some (push c e ud !! c').
Proof.
  intros [u Hu]. unfold push. destruct (decide (c' = c)) as [->|Hne].
  - rewrite lookup_alter_eq, Hu. simpl. eauto.
  - rewrite lookup_alter_ne by done. eauto.
Qed.

Lemma seen_entry_push c e ud c' e' : seen_entry (push c e ud) c' e' = seen_entry ud c' e'.
Proof.
  unfold seen_entry, push. destruct (decide (c' = c)) as [->|Hne].
  - rewrite lookup_alter_eq. by destruct (ud !! c).
  - by rewrite lookup_alter_ne.
Qed.

Lemma tracked_drop_email c e ud :
  tracked (drop_email c e ud) c =
    List.filter (fun x => negb (String.eqb x e)) (tracked ud c).
Proof.
  unfold tracked, drop_email. rewrite lookup_alter_eq. by destruct (ud !! c).
Qed.

Lemma tracked_drop_email_other c e ud c' :
  c' ≠ c → tracked (drop_email c e ud) c' = tracked ud c'.
Proof. intros H. unfold tracked, drop_email. by rewrite lookup_alter_ne. Qed.

Lemma seen_entry_drop_email c e ud c' e' :
  seen_entry (drop_email c e ud) c' e' = seen_entry ud c' e'.
Proof.
  unfold seen_entry, drop_email. destruct (decide (c' = c)) as [->|Hne].
  - rewrite lookup_alter_eq. by destruct (ud !! c).
  - by rewrite lookup_alter_ne.
Qed.

Lemma tracked_forget_seen c e ud c' : tracked (forget_seen c e ud) c' = tracked ud c'.
Proof.
  unfold tracked, forget_seen. destruct (decide (c' = c)) as [->|Hne].
  - rewrite lookup_alter_eq. by destruct (ud !! c).
  - by rewrite lookup_alter_ne.
Qed.

Lemma seen_entry_forget_seen_eq c e ud : seen_entry (forget_seen c e ud) c e = None.
Proof.
  unfold seen_entry, forget_seen. rewrite lookup_alter_eq.
  destruct (ud !! c); [simpl|done]. apply lookup_delete_eq.
Qed.

Lemma seen_entry_forget_seen_ne c e ud c' e' :
  (c', e') ≠ (c, e) → seen_entry (forget_seen c e ud) c' e' = seen_entry ud c' e'.
Proof.
  intros H. unfold seen_entry, forget_seen.
  destruct (decide (c' = c)) as [->|Hne]; [|by rewrite lookup_alter_ne].
  rewrite lookup_alter_eq. destruct (ud !! c); [simpl|done].
  apply lookup_delete_ne. congruence.
Qed.

Lemma not_in_filter_out e l :
  e ∉ List.filter (fun x => negb (String.eqb x e)) l.
Proof.
  rewrite list_elem_of_In, filter_In. intros [_ H].
  by rewrite String.eqb_refl in H.
Qed.

Lemma NoDup_filter_out e l :
  NoDup l → NoDup (List.filter (fun x => negb (String.eqb x e)) l).
Proof.
  rewrite !NoDup_ListNoDup. apply List.NoDup_filter.
Qed.

(** The import loop, by what it appends. *)
Lemma import_loop_from c es ud n :
  is_Some (ud !! c) →
  tracked (fold_left (import_step c) es (ud, n)).1 c =
    tracked ud c ++ fresh_of (tracked ud c) es ∧
  (fold_left (import_step c) es (ud, n)).2 =
    n + length (fresh_of (tracked ud c) es) ∧
  is_Some ((fold_left (import_step c) es (ud, n)).1 !! c) ∧
  (∀ c', c' ≠ c → tracked (fold_left (import_step c) es (ud, n)).1 c' = tracked ud c') ∧
  (∀ c' e', seen_entry (fold_left (import_step c) es (ud, n)).1 c' e' =
            seen_entry ud c' e').
Proof.
  revert ud n. induction es as [|e es IH]; intros ud n Hu; simpl.
  - rewrite app_nil_r. repeat split; auto with lia.
  - change (import_step c (ud, n) e)
      with (if bool_decide (e ∈ tracked ud c) then (ud, n)
            else (push c e ud, S n)).
    destruct (bool_decide (e ∈ tracked ud c)); [by apply IH|].
    destruct (IH (push c e ud) (S n)) as (A & B & C & D & E).
    { by apply push_is_Some. }
    rewrite tracked_push in A, B by done. repeat split.
    + by rewrite A, <- app_assoc.
    + rewrite B. simpl. lia.
    + done.
    + intros c' Hne. rewrite D by done. by apply tracked_push_other.
    + intros c' e'. by rewrite E, seen_entry_push.
Qed.

Lemma fresh_of_spec l es :
  (∀ x, x ∈ l ++ fresh_of l es ↔ x ∈ l ∨ x ∈ es) ∧
  (∀ x, x ∈ fresh_of l es → x ∈ es ∧ x ∉ l) ∧
  (NoDup l → NoDup (l ++ fresh_of l es)).
Proof.
  revert l. induction es as [|e es IH]; intros l; simpl.
  - rewrite app_nil_r. split; [|split].
    + intros x. rewrite elem_of_nil. tauto.
    + intros x. rewrite elem_of_nil. tauto.
    + auto.
  - case_bool_decide as He.
    + destruct (IH l) as (A & B & C). split; [|split].
      * intros x. rewrite A, elem_of_cons.
        split; [tauto|]. intros [?|[->|?]]; auto.
      * intros x Hx. apply B in Hx. rewrite elem_of_cons. tauto.
      * done.
    + destruct (IH (l ++ [e])) as (A & B & C).
      assert (E : l ++ e :: fresh_of (l ++ [e]) es =
                  (l ++ [e]) ++ fresh_of (l ++ [e]) es)
        by (by rewrite <- app_assoc).
      split; [|split].
      * intros x. rewrite E, A, elem_of_app, list_elem_of_singleton, elem_of_cons.
        tauto.
      * intros x. rewrite elem_of_cons. intros [->|Hx].
        { split; [by left|done]. }
        apply B in Hx. rewrite elem_of_app in Hx. rewrite elem_of_cons. tauto.
      * intros Hl. rewrite E. apply C. apply NoDup_app. split; [done|]. split.
        -- intros x Hx Hx'. apply list_elem_of_singleton in Hx'. by subst.
        -- apply NoDup_singleton.
Qed.

End Tracked.

(** ** The handlers of bot.js *)

Section Handlers.
Import Bot Bot.
Variables (env : Env) (chatId : string).

Lemma userData_saveData w : userData (saveData env w) = userData w.
Proof. unfold saveData. by destruct (write_ok env _). Qed.

Lemma sent_saveData w : sent (saveData env w) = sent w.
Proof. unfold saveData. by destruct (write_ok env _). Qed.

Lemma tracked_is_Some ud c e : e ∈ tracked ud c → is_Some (ud !! c).
Proof.
  unfold tracked. destruct (ud !! c); [eauto|]. intros H.
  by apply elem_of_nil in H.
Qed.

(** [/add]: what becomes of the tracked lists. *)
Lemma add_handler_tracked text w c :
  tracked (userData (add_handler env chatId text w)) c =
    match split_spaces (trim text) with
    | _ :: part :: _ =>
        if bool_decide (c = chatId ∧ trim part ∉ tracked (userData w) chatId)
        then tracked (userData w) c ++ [trim part]
        else tracked (userData w) c
    | _ => tracked (userData w) c
    end.
Proof.
  unfold add_handler.
  destruct (split_spaces (trim text)) as [|cmd [|part rest]]; simpl;
    try apply tracked_ensureUser.
  rewrite tracked_ensureUser.
  case_bool_decide as Hin; simpl.
  - rewrite tracked_ensureUser, bool_decide_eq_false_2; [done|tauto].
  - rewrite userData_saveData. simpl. case_bool_decide as Hc.
    + destruct Hc as [-> _]. rewrite tracked_push by apply ensureUser_is_Some.
      by rewrite tracked_ensureUser.
    + rewrite tracked_push_other by tauto. apply tracked_ensureUser.
Qed.

(** [/add] of a tracked address changes nothing in memory. *)
Lemma add_handler_tracked_already text w cmd part rest :
  split_spaces (trim text) = cmd :: part :: rest →
  trim part ∈ tracked (userData w) chatId →
  userData (add_handler env chatId text w) = userData w ∧
  ∃ ok, sent (add_handler env chatId text w) =
        {| to := chatId; text := Reply (AlreadyTracking (trim part));
           delivered := ok |} :: sent w.
Proof.
  intros Hparts Hin. unfold add_handler. rewrite Hparts. simpl.
  rewrite tracked_ensureUser, bool_decide_eq_true_2 by done. simpl.
  destruct (tracked_is_Some _ _ _ Hin) as [u Hu].
  rewrite (ensureUser_known _ _ _ Hu). eauto.
Qed.

(** [/import]: what becomes of the tracked lists. *)
Lemma import_handler_tracked text w c :
  tracked (userData (import_handler env chatId text w)) c =
    match take 2 (split_spaces (trim text)) with
    | [_; emailList] =>
        if bool_decide (c = chatId)
        then tracked (userData w) c ++
             fresh_of (tracked (userData w) c) (cleaned (split_commas emailList))
        else tracked (userData w) c
    | _ => tracked (userData w) c
    end.
Proof.
  unfold import_handler.
  destruct (take 2 (split_spaces (trim text))) as [|cmd [|emailList [|]]]; simpl;
    try apply tracked_ensureUser.
  destruct (cleaned (split_commas emailList)) as [|e es] eqn:Hes.
  - simpl. rewrite tracked_ensureUser, app_nil_r. by case_bool_decide.
  - rewrite <- Hes. clear Hes e es.
    set (es := cleaned (split_commas emailList)).
    destruct (import_loop_from chatId es (ensureUser chatId (userData w)) 0)
      as (A & B & C & D & E); [apply ensureUser_is_Some|].
    unfold import_loop.
    destruct (fold_left (import_step chatId) es (ensureUser chatId (userData w), 0))
      as [ud n]. simpl in *.
    rewrite userData_saveData. simpl. case_bool_decide as Hc.
    + subst c. by rewrite A, tracked_ensureUser.
    + rewrite D by done. apply tracked_ensureUser.
Qed.

(** [/import] with at least one address: the list grows by the supplied
    addresses it lacked, each once; the reply counts those; the state is
    saved. *)
Lemma import_handler_reports_added text w cmd emailList :
  take 2 (split_spaces (trim text)) = [cmd; emailList] →
  cleaned (split_commas emailList) ≠ [] →
  let old := tracked (userData w) chatId in
  let added := fresh_of old (cleaned (split_commas emailList)) in
  let w' := import_handler env chatId text w in
  tracked (userData w') chatId = old ++ added ∧
  (∃ ok, sent w' =
         {| to := chatId;
            text := Reply (Imported (length added) (length (old ++ added)));
            delivered := ok |} :: sent w) ∧
  (write_ok env (writes w) = true → disk w' = Snapshot (userData w')).
Proof.
  intros Hparts Hne.
  remember (cleaned (split_commas emailList)) as es eqn:Hes.
  destruct es as [|e es]; [done|]. clear Hne.
  intros old added w'.
  assert (Hw' : w' =
    let '(ud, imported) :=
      import_loop chatId (e :: es) (ensureUser chatId (userData w)) in
    sendTelegram env chatId
      (Reply (Imported imported (length (tracked ud chatId))))
      (saveData env (update (fun _ => ud) (update (ensureUser chatId) w)))).
  { unfold w', import_handler. by rewrite Hparts, <- Hes. }
  destruct (import_loop_from chatId (e :: es) (ensureUser chatId (userData w)) 0)
    as (A & B & C & D & E); [apply ensureUser_is_Some|].
  unfold import_loop in Hw'.
  destruct (fold_left (import_step chatId) (e :: es)
              (ensureUser chatId (userData w), 0)) as [ud n].
  cbn [fst snd] in A, B. rewrite tracked_ensureUser in A, B.
  fold old in A, B. fold added in A, B. rewrite Hw'.
  split; [|split].
  - simpl. by rewrite userData_saveData.
  - simpl. rewrite sent_saveData. simpl. rewrite A, B. eauto.
  - intros Hok. simpl. unfold saveData. simpl. by rewrite Hok.
Qed.

(** [/delete]: the address leaves the list, its seen-set is dropped, the
    state is saved. *)
Lemma delete_handler_forgets text w cmd part rest :
  split_spaces (trim text) = cmd :: part :: rest →
  let email := trim part in
  let w' := delete_handler env chatId text w in
  tracked (userData w') chatId =
    List.filter (fun x => negb (String.eqb x email)) (tracked (userData w) chatId) ∧
  (email ∉ tracked (userData w') chatId) ∧
  seen_entry (userData w') chatId email = None ∧
  (∀ c e, (c, e) ≠ (chatId, email) →
          seen_entry (userData w') c e = seen_entry (userData w) c e) ∧
  (∀ c, c ≠ chatId → tracked (userData w') c = tracked (userData w) c) ∧
  (write_ok env (writes w) = true → disk w' = Snapshot (userData w')).
Proof.
  intros Hparts email w'.
  assert (Hu : userData w' =
            forget_seen chatId email
              (drop_email chatId email (ensureUser chatId (userData w)))).
  { unfold w', delete_handler. rewrite Hparts. fold email. cbv zeta.
    match goal with |- context [if ?b then _ else _] => destruct b end;
      simpl; by rewrite userData_saveData. }
  assert (Ht : tracked (userData w') chatId =
            List.filter (fun x => negb (String.eqb x email))
              (tracked (userData w) chatId)).
  { by rewrite Hu, tracked_forget_seen, tracked_drop_email, tracked_ensureUser. }
  split; [done|]. split.
  { rewrite Ht. apply not_in_filter_out. }
  split.
  { rewrite Hu. apply seen_entry_forget_seen_eq. }
  split; [|split].
  - intros c e Hne.
    by rewrite Hu, seen_entry_forget_seen_ne, seen_entry_drop_email,
      seen_entry_ensureUser.
  - intros c Hne.
    by rewrite Hu, tracked_forget_seen, tracked_drop_email_other,
      tracked_ensureUser.
  - intros Hok. unfold w', delete_handler. rewrite Hparts. fold email. cbv zeta.
    match goal with |- context [if ?b then _ else _] => destruct b end;
      simpl; unfold saveData; simpl; by rewrite Hok.
Qed.

(** [/delete]: what becomes of the tracked lists. *)
Lemma delete_handler_tracked text w c :
  tracked (userData (delete_handler env chatId text w)) c =
    match split_spaces (trim text) with
    | _ :: part :: _ =>
        if bool_decide (c = chatId)
        then List.filter (fun x => negb (String.eqb x (trim part)))
               (tracked (userData w) c)
        else tracked (userData w) c
    | _ => tracked (userData w) c
    end.
Proof.
  unfold delete_handler.
  destruct (split_spaces (trim text)) as [|cmd [|part rest]]; simpl;
    try apply tracked_ensureUser.
  match goal with |- context [if ?b then _ else _] => destruct b end;
    simpl; rewrite userData_saveData; simpl; rewrite tracked_forget_seen;
    (case_bool_decide as Hc;
      [subst c; by rewrite tracked_drop_email, tracked_ensureUser
      |by rewrite tracked_drop_email_other, tracked_ensureUser]).
Qed.

(** [/new]: what becomes of the tracked lists. *)
Lemma new_handler_tracked resp r36 k w c :
  tracked (userData (new_handler env chatId resp r36 k w)) c =
    match (getDomains resp).1 with
    | [] => tracked (userData w) c
    | ds =>
        if bool_decide (c = chatId)
        then tracked (userData w) c ++ [generateRandomEmail r36 k ds]
        else tracked (userData w) c
    end.
Proof.
  unfold new_handler. destruct (getDomains resp) as [ds errs]. simpl.
  destruct ds as [|d ds]; simpl; [apply tracked_ensureUser|].
  rewrite userData_saveData. simpl. case_bool_decide as Hc.
  - subst c. rewrite tracked_push by apply ensureUser_is_Some.
    by rewrite tracked_ensureUser.
  - rewrite tracked_push_other by done. apply tracked_ensureUser.
Qed.

End Handlers.

Section Absorbed.
Import Bot.
Variables (env env' : Env) (chatId email : string).
Variable attResp : mail -> http attachment.

Lemma same_attempts_update f w w' :
  same_attempts w w' → same_attempts (update f w) (update f w').
Proof. intros [A B]. split; simpl; congruence. Qed.

Lemma same_attempts_log ls w w' :
  same_attempts w w' → same_attempts (log ls w) (log ls w').
Proof. done. Qed.

Lemma same_attempts_send m w w' :
  same_attempts w w' →
  same_attempts (sendTelegram env chatId m w) (sendTelegram env' chatId m w').
Proof. intros [A B]. split; simpl; congruence. Qed.

Lemma same_attempts_save w w' :
  same_attempts w w' → same_attempts (saveData env w) (saveData env' w').
Proof.
  intros [A B]. unfold saveData.
  by destruct (write_ok env _), (write_ok env' _).
Qed.

Lemma same_attempts_attachments atts r r' :
  same_attempts (now r) (now r') →
  same_attempts (now (send_attachments env chatId atts r))
                (now (send_attachments env' chatId atts r')).
Proof.
  unfold send_attachments. revert r r'.
  induction atts as [|a atts IH]; intros r r' H; [done|].
  simpl. apply IH. simpl. by apply same_attempts_send.
Qed.

Lemma same_attempts_process_mail r r' m :
  same_attempts (now r) (now r') →
  same_attempts (now (process_mail env chatId email attResp r m))
                (now (process_mail env' chatId email attResp r' m)).
Proof.
  intros H. unfold process_mail. rewrite <- (proj1 H).
  destruct (is_seen (userData (now r)) chatId email (mail_id m)); [done|].
  simpl. apply same_attempts_save.
  assert (H2 : same_attempts
    (now (tick (sendTelegram env chatId (compose email m))
            (tick (update (mark_seen chatId email (mail_id m))) r)))
    (now (tick (sendTelegram env' chatId (compose email m))
            (tick (update (mark_seen chatId email (mail_id m))) r')))).
  { simpl. by apply same_attempts_send, same_attempts_update. }
  destruct (mail_hasAttachments m); [|done].
  destruct (fetchAttachmentsForAddress email (attResp m)) as [atts errs].
  apply same_attempts_attachments. simpl. by apply same_attempts_log.
Qed.

(** In bot.js the sends a cycle attempts, and the state it leaves in memory,
    do not depend on which deliveries or file writes fail. *)
Lemma cycle_absorbs_failures resp w :
  same_attempts (cycle env chatId email resp attResp w)
                (cycle env' chatId email resp attResp w).
Proof.
  unfold cycle, checkEmailInbox.
  destruct (fetchEmailsForAddress email resp) as [ms errs].
  set (r2 := tick _ _).
  assert (H : same_attempts (now r2) (now r2)) by done.
  revert H. generalize r2 at 1 3. generalize r2.
  induction ms as [|m ms IH]; intros r r' H; [done|].
  simpl. apply IH. by apply same_attempts_process_mail.
Qed.

(** Every failed delivery leaves a line on the console. *)
Lemma sendTelegram_logs_failure m w :
  deliver env (length (sent w)) = false →
  console (sendTelegram env chatId m w) = SendError :: console w.
Proof. intros H. unfold sendTelegram. simpl. by rewrite H. Qed.

End Absorbed.

Section LocalPart.

Lemma substring_0_length n s :
  n ≤ String.length s → String.length (substring 0 n s) = n.
Proof.
  revert s. induction n as [|n IH]; intros s H.
  - by destruct s.
  - destruct s as [|a s]; simpl in *; [lia|]. rewrite IH; [done|lia].
Qed.

Lemma substring_0_length_le n s : String.length (substring 0 n s) ≤ n.
Proof.
  revert s. induction n as [|n IH]; intros s.
  - by destruct s.
  - destruct s as [|a s]; simpl; [lia|]. specialize (IH s). lia.
Qed.

Lemma substring_0_base36 n s :
  all_base36 s = true → all_base36 (substring 0 n s) = true.
Proof.
  revert s. induction n as [|n IH]; intros s H.
  - by destruct s.
  - destruct s as [|a s]; simpl in *; [done|].
    apply andb_true_iff in H as [Ha Hs]. rewrite Ha. simpl. by apply IH.
Qed.

Lemma local_part_append s t :
  all_base36 s = true → local_part (s ++ "@" ++ t)%string = s.
Proof.
  induction s as [|a s IH]; simpl; [done|].
  intros H. apply andb_true_iff in H as [Ha Hs].
  destruct (Ascii.eqb a "@"%char) eqn:E.
  - apply Ascii.eqb_eq in E. subst a. discriminate Ha.
  - by rewrite IH.
Qed.

(** When the rendering of the draw has at least eight base-36 digits after
    ["0."], the address is eight of them, [@], and one of the domains. *)
Lemma generateRandomEmail_long digits k domains :
  all_base36 digits = true → 8 ≤ String.length digits → k < length domains →
  ∃ d, d ∈ domains ∧
       Bot.generateRandomEmail ("0." ++ digits)%string k domains =
         (substring 0 8 digits ++ "@" ++ d)%string ∧
       String.length (substring 0 8 digits) = 8 ∧
       all_base36 (substring 0 8 digits) = true.
Proof.
  intros Hd Hlen Hk. exists (nth k domains "undefined").
  split; [|split; [done|split]].
  - apply list_elem_of_In, nth_In. done.
  - by apply substring_0_length.
  - by apply substring_0_base36.
Qed.

(** In every case the local part has at most eight characters. *)
Lemma generateRandomEmail_short digits k domains :
  all_base36 digits = true →
  String.length (local_part (Bot.generateRandomEmail ("0." ++ digits)%string k domains))
    ≤ 8.
Proof.
  intros Hd. unfold Bot.generateRandomEmail.
  change (substring 2 8 ("0." ++ digits)%string) with (substring 0 8 digits).
  rewrite local_part_append by (by apply substring_0_base36).
  apply substring_0_length_le.
Qed.

End LocalPart.

(** ** The claims about the command handlers and the variants *)

(** C4.  In backup.js and bot2.js the import reply counts the addresses
    supplied, not the addresses added: importing the one address the user
    already tracks adds nothing and reports 1.  bot.js reports 0 new
    addresses on the same input. *)
Theorem variants_report_supplied_count :
  let backup := Backup.import_handler all_fine "7" "x@a.test" sample_world in
  let bot2 := Bot2.import_handler all_fine "7" "x@a.test" sample_world in
  let bot := Bot.import_handler all_fine "7" "/import x@a.test" sample_world in
  (tracked (userData backup) "7" = tracked (userData sample_world) "7" ∧
   attempts (sent backup) = [("7", Reply (ImportedCount 1))]) ∧
  (tracked (userData bot2) "7" = tracked (userData sample_world) "7" ∧
   attempts (sent bot2) = [("7", Reply (ImportedCount 1))]) ∧
  (tracked (userData bot) "7" = tracked (userData sample_world) "7" ∧
   attempts (sent bot) = [("7", Reply (Imported 0 1))]).
Proof. vm_compute. repeat split. Qed.

(** C5.  In bot2.js removing an address takes it off the tracked list but
    keeps its seen-set, in memory and in the saved file: when the address is
    added again and polled while the provider still reports message 1, no
    notice is sent for it.  bot.js and backup.js drop the seen-set on the
    same input, and bot.js then notifies message 1 again. *)
Theorem bot2_delete_keeps_seen_set :
  let one_mail := HttpOk (BodyArray [plain_mail "1"]) in
  let bot2 := Bot2.delete_handler all_fine "7" "x@a.test" seen_world in
  let bot2' := Bot2.cycle all_fine "7" "x@a.test" one_mail no_attachments
                 (Bot2.add_handler all_fine "7" "x@a.test" bot2) in
  let bot := Bot.delete_handler all_fine "7" "/delete x@a.test" seen_world in
  let bot' := Bot.cycle all_fine "7" "x@a.test" one_mail no_attachments
                (Bot.add_handler all_fine "7" "/add x@a.test" bot) in
  let backup := Backup.delete_handler all_fine "7" "x@a.test" seen_world in
  (tracked (userData bot2) "7" = [] ∧
   is_seen (userData bot2) "7" "x@a.test" "1" = true ∧
   seen_on_disk (disk bot2) "7" "x@a.test" "1" = true ∧
   notified "7" "x@a.test" "1" (sent bot2') = 0) ∧
  (tracked (userData bot) "7" = [] ∧
   seen_entry (userData bot) "7" "x@a.test" = None ∧
   notified "7" "x@a.test" "1" (sent bot') = 1) ∧
  (tracked (userData backup) "7" = [] ∧
   seen_entry (userData backup) "7" "x@a.test" = None).
Proof. vm_compute. repeat split. Qed.

(** C6.  When the first random draw is 0.5, whose base-36 rendering is
    ["0.i"], the address created for a user without tracked addresses has a
    local part of one character, not eight; it is appended and the list
    grows by one. *)
Theorem short_draw_short_local_part :
  let w' := Bot.new_handler all_fine "7"
              (HttpOk (BodyArray ["a.test"; "b.test"])) "0.i" 0 empty_world in
  tracked (userData empty_world) "7" = [] ∧
  tracked (userData w') "7" = ["i@a.test"] ∧
  String.length (local_part "i@a.test") = 1.
Proof. vm_compute. repeat split. Qed.

(** C7.  Create-address appends the generated address without the test
    that add-address and import make: a draw that produces a tracked address
    again leaves the list with a duplicate. *)
Lemma create_address_can_duplicate :
  let w' := Bot.new_handler all_fine "7"
              (HttpOk (BodyArray ["a.test"])) "0.abcdefghij" 0 colliding_world in
  NoDup (tracked (userData colliding_world) "7") ∧
  tracked (userData w') "7" = ["abcdefgh@a.test"; "abcdefgh@a.test"] ∧
  ¬ NoDup (tracked (userData w') "7").
Proof.
  split; [|split].
  - vm_compute. apply NoDup_singleton.
  - by vm_compute.
  - vm_compute. intros H. apply NoDup_cons in H as [H _].
    apply H. by left.
Qed.

(** What does hold of the tracked lists.  On a list without duplicates,
    add-address, import and remove-address leave every tracked list without
    duplicates, and adding an address that is already tracked changes nothing
    in memory.  After create-address the list is without duplicates exactly
    when no domain was returned or the generated address was not tracked
    yet. *)
Lemma no_duplicates_preserved :
  ∀ (env : Env) (chatId : string) (w : World) (c : string),
    NoDup (tracked (userData w) c) →
    (∀ text, NoDup (tracked (userData (Bot.add_handler env chatId text w)) c)) ∧
    (∀ text, NoDup (tracked (userData (Bot.import_handler env chatId text w)) c)) ∧
    (∀ text, NoDup (tracked (userData (Bot.delete_handler env chatId text w)) c)) ∧
    (∀ text cmd part rest,
       split_spaces (trim text) = cmd :: part :: rest →
       trim part ∈ tracked (userData w) chatId →
       userData (Bot.add_handler env chatId text w) = userData w) ∧
    (∀ resp r36 k,
       NoDup (tracked (userData (Bot.new_handler env chatId resp r36 k w)) c) ↔
       (Bot.getDomains resp).1 = [] ∨ c ≠ chatId ∨
       Bot.generateRandomEmail r36 k (Bot.getDomains resp).1
         ∉ tracked (userData w) chatId).
Proof.
  intros env chatId w c Hnd.
  assert (Hsnoc : ∀ x, NoDup (tracked (userData w) c ++ [x]) ↔
                       x ∉ tracked (userData w) c).
  { intros x. rewrite NoDup_app. split.
    - intros (_ & H & _) Hx. apply (H x Hx). by left.
    - intros Hx. split; [done|]. split; [|apply NoDup_singleton].
      intros y Hy Hy'. apply list_elem_of_singleton in Hy'. by subst. }
  split; [|split; [|split; [|split]]].
  - intros text. rewrite add_handler_tracked.
    destruct (split_spaces (trim text)) as [|cmd [|part rest]]; try done.
    case_bool_decide as H; [|done]. destruct H as [-> H]. by apply Hsnoc.
  - intros text. rewrite import_handler_tracked.
    destruct (take 2 (split_spaces (trim text))) as [|cmd [|emailList [|]]];
      try done.
    case_bool_decide; [|done]. by apply fresh_of_spec.
  - intros text. rewrite delete_handler_tracked.
    destruct (split_spaces (trim text)) as [|cmd [|part rest]]; try done.
    case_bool_decide; [|done]. by apply NoDup_filter_out.
  - intros text cmd part rest Hparts Hin.
    by destruct (add_handler_tracked_already env chatId text w cmd part rest).
  - intros resp r36 k. rewrite new_handler_tracked.
    destruct (Bot.getDomains resp).1 as [|d ds] eqn:Hds.
    { split; [by left|done]. }
    case_bool_decide as Hc.
    + subst c. rewrite Hsnoc. split; [by auto|].
      intros [H|[H|H]]; done.
    + split; [by auto|done].
Qed.

(** C8.  In bot2.js a delivery that fails ends the cycle: of two new
    messages only the first is attempted, the error goes to the console, the
    mark of the first message stays in memory and nothing is saved.  bot.js
    attempts both on the same input. *)
Theorem bot2_aborts_on_failed_delivery :
  let bot2 := Bot2.cycle first_send_fails "7" "x@a.test" two_mails
                no_attachments sample_world in
  let bot := Bot.cycle first_send_fails "7" "x@a.test" two_mails
               no_attachments sample_world in
  (attempts (sent bot2) = [("7", notice2 "x@a.test" "1")] ∧
   console bot2 = [CycleError "x@a.test"] ∧
   is_seen (userData bot2) "7" "x@a.test" "1" = true ∧
   is_seen (userData bot2) "7" "x@a.test" "2" = false ∧
   writes bot2 = 0) ∧
  (attempts (sent bot) =
     [("7", notice "x@a.test" "2"); ("7", notice "x@a.test" "1")] ∧
   console bot = [SendError] ∧
   writes bot = 2).
Proof. vm_compute. repeat split. Qed.

(** ** Instances *)

(** A response of bot2.js that is a string of three characters: the loop
    runs once per character, the first is notified as a message whose id
    reads [undefined], and the others are skipped as seen. *)
Example text_body_one_notice :
  attempts (sent (Bot2.cycle all_fine "7" "x@a.test" (HttpOk (BodyText 3))
                    no_attachments sample_world)) =
    [("7", notice2 "x@a.test" "undefined")] ∧
  attempts (sent (Bot.cycle all_fine "7" "x@a.test" (HttpOk (BodyText 3))
                    no_attachments sample_world)) = [].
Proof. vm_compute. by split. Qed.

(** The scenario of the specification: messages 1 and 2 on the first cycle,
    then 1, 2 and 3 on the second; two notices, then one, for message 3. *)
Example two_notices_then_one :
  let w1 := Bot.cycle all_fine "7" "x@a.test" two_mails no_attachments sample_world in
  let w2 := Bot.cycle all_fine "7" "x@a.test"
              (HttpOk (BodyEnvelope true
                 (Some [plain_mail "1"; plain_mail "2"; plain_mail "3"])))
              no_attachments w1 in
  attempts (sent w1) = [("7", notice "x@a.test" "2"); ("7", notice "x@a.test" "1")] ∧
  attempts (sent w2) = ("7", notice "x@a.test" "3") :: attempts (sent w1) ∧
  disk w2 = Snapshot (userData w2).
Proof. vm_compute. repeat split. Qed.

Lemma at_most_once_notification_witness :
  1 ≤ 3 ∧
  plain_poll "x@a.test" two_mails = true ∧
  notified "7" "x@a.test" "1"
    (sent (Bot.cycles all_fine "7" "x@a.test" two_mails no_attachments 3 sample_world)) =
  notified "7" "x@a.test" "1" (sent sample_world) +
  (if negb (is_seen (userData sample_world) "7" "x@a.test" "1") &&
      bool_decide ("1" ∈ ids (Bot.fetchEmailsForAddress "x@a.test" two_mails).1)
   then 1 else 0).
Proof.
  split; [lia|]. split; [reflexivity|].
  apply (at_most_once_notification all_fine "7" "x@a.test"
           two_mails no_attachments 3 sample_world "1"); [lia|reflexivity].
Defined.



Lemma poll_cycle_frame_witness :
  plain_poll "x@a.test" two_mails = true ∧
  Forall
    (fun p => framed "7" "x@a.test" (Bot.fetchEmailsForAddress "x@a.test" two_mails).1
                (userData sample_world) (userData p))
    (points (Bot.checkEmailInbox all_fine "7" "x@a.test" two_mails no_attachments
               sample_world)).
Proof.
  split; [reflexivity|].
  apply (poll_cycle_frame all_fine "7" "x@a.test" two_mails no_attachments
           sample_world).
  reflexivity.
Defined.

Lemma seen_set_survives_restart_witness :
  let w1 := Bot.cycle all_fine "7" "x@a.test" two_mails no_attachments sample_world in
  let v := {| userData := ∅; disk := disk w1; sent := []; writes := 0;
              console := [] |} in
  let w3 := Bot.cycle all_fine "7" "x@a.test" two_mails no_attachments (Bot.load v) in
  (∀ k, write_ok all_fine k = true) ∧
  plain_poll "x@a.test" two_mails = true ∧
  "1" ∈ ids (Bot.fetchEmailsForAddress "x@a.test" two_mails).1 ∧
  is_seen (userData sample_world) "7" "x@a.test" "1" = false ∧
  disk v = disk w1 ∧
  userData (Bot.load v) = userData w1 ∧
  notified "7" "x@a.test" "1" (sent w3) = notified "7" "x@a.test" "1" (sent v).
Proof.
  intros w1 v w3.
  assert (H1 : "1" ∈ ids (Bot.fetchEmailsForAddress "x@a.test" two_mails).1)
    by (simpl; left).
  destruct (seen_set_survives_restart all_fine all_fine "7" "x@a.test" two_mails
              no_attachments no_attachments sample_world v "1")
    as (_ & A & _ & B).
  - intros k. reflexivity.
  - reflexivity.
  - exact H1.
  - reflexivity.
  - reflexivity.
  - split; [reflexivity|]. split; [reflexivity|]. split; [exact H1|].
    split; [reflexivity|]. split; [reflexivity|]. split; [exact A|exact B].
Defined.

(** * Further properties of the code *)

(** ** The sends of a cycle, in order *)

Section Sends.
Import Bot.
Variables (env : Env) (chatId email : string).
Variable attResp : mail -> http attachment.

Lemma news_ext s1 s2 ms : (∀ i, s1 i = s2 i) → news s1 ms = news s2 ms.
Proof.
  revert s1 s2. induction ms as [|m ms IH]; intros s1 s2 H; simpl; [done|].
  rewrite H. destruct (s2 (mail_id m)); [by apply IH|].
  f_equal. apply IH. intros i. by rewrite H.
Qed.

Lemma attempts_send_attachments atts r :
  attempts (sent (now (send_attachments env chatId atts r))) =
  rev (map (fun a => (chatId, attachment_note a)) atts) ++ attempts (sent (now r)).
Proof.
  unfold send_attachments. revert r.
  induction atts as [|a atts IH]; intros r; [done|].
  simpl. rewrite IH. simpl. by rewrite <- app_assoc.
Qed.

Lemma writes_send_attachments atts r :
  writes (now (send_attachments env chatId atts r)) = writes (now r).
Proof.
  unfold send_attachments. revert r.
  induction atts as [|a atts IH]; intros r; [done|].
  simpl. by rewrite IH.
Qed.

Lemma process_mail_sends r m :
  let r' := process_mail env chatId email attResp r m in
  attempts (sent (now r')) =
    (if is_seen (userData (now r)) chatId email (mail_id m) then []
     else rev (sends_for chatId email attResp m)) ++ attempts (sent (now r)) ∧
  writes (now r') =
    writes (now r) +
    (if is_seen (userData (now r)) chatId email (mail_id m) then 0 else 1).
Proof.
  unfold process_mail, sends_for.
  destruct (is_seen (userData (now r)) chatId email (mail_id m)); simpl.
  { split; [done|lia]. }
  rewrite sent_saveData.
  assert (Hw : ∀ w, writes (saveData env w) = S (writes w)).
  { intros w. unfold saveData. by destruct (write_ok env _). }
  rewrite Hw.
  destruct (mail_hasAttachments m); simpl.
  - destruct (fetchAttachmentsForAddress email (attResp m)) as [atts errs]. simpl.
    rewrite attempts_send_attachments, writes_send_attachments. simpl.
    split; [by rewrite <- app_assoc|lia].
  - split; [done|lia].
Qed.

Lemma process_mails_sends ms r :
  has_entry (userData (now r)) chatId email →
  let nw := news (is_seen (userData (now r)) chatId email) ms in
  let r' := fold_left (process_mail env chatId email attResp) ms r in
  attempts (sent (now r')) =
    rev (flat_map (sends_for chatId email attResp) nw) ++ attempts (sent (now r)) ∧
  writes (now r') = writes (now r) + length nw.
Proof.
  revert r. induction ms as [|m ms IH]; intros r He; simpl.
  { split; [done|lia]. }
  destruct (process_mail_sends r m) as [Ha Hw].
  destruct (process_mail_now env chatId email attResp r m He) as (He1 & Hs1 & _).
  destruct (IH _ He1) as [Ha2 Hw2].
  rewrite Ha2, Hw2, Ha, Hw.
  assert (Hnews :
    news (is_seen (userData (now (process_mail env chatId email attResp r m)))
            chatId email) ms =
    news (fun i => is_seen (userData (now r)) chatId email i ||
                   bool_decide (i = mail_id m)) ms).
  { apply news_ext. intros i. rewrite Hs1. f_equal.
    apply eq_true_iff_eq. rewrite !bool_decide_eq_true. tauto. }
  destruct (is_seen (userData (now r)) chatId email (mail_id m)) eqn:Hseen.
  - assert (Hsame :
      news (is_seen (userData (now (process_mail env chatId email attResp r m)))
              chatId email) ms =
      news (is_seen (userData (now r)) chatId email) ms).
    { apply news_ext. intros i. rewrite Hs1.
      case_bool_decide as Hd; [|by rewrite orb_false_r].
      destruct Hd as (_ & _ & ->). by rewrite Hseen. }
    rewrite Hsame. split; [done|lia].
  - rewrite Hnews. cbn [flat_map length]. rewrite rev_app_distr, <- app_assoc.
    split; [done|lia].
Qed.

End Sends.

(** X1.  The sends of a bot.js poll cycle, the address and the fetched ids
    being plain keys, are, in this order, for each fetched message whose id
    is neither seen nor met earlier in the same response: its notice,
    followed, when the message says it has attachments, by one note per
    attachment of the address; nothing else is sent.  The state is saved
    once per such message. *)
Theorem cycle_sends_in_provider_order :
  ∀ (env : Env) (chatId email : string) (resp : http mail)
    (attResp : mail -> http attachment) (w : World),
    plain_poll email resp = true →
    let nw := news (is_seen (userData w) chatId email)
                (Bot.fetchEmailsForAddress email resp).1 in
    let w' := Bot.cycle env chatId email resp attResp w in
    attempts (sent w') =
      rev (flat_map (sends_for chatId email attResp) nw) ++ attempts (sent w) ∧
    writes w' = writes w + length nw.
Proof.
  intros env chatId email resp attResp w _.
  unfold Bot.cycle, Bot.checkEmailInbox.
  destruct (Bot.fetchEmailsForAddress email resp) as [ms errs]. simpl.
  set (r2 := tick _ _).
  assert (He : has_entry (userData (now r2)) chatId email).
  { simpl. apply has_entry_ensure_seen, ensureUser_is_Some. }
  destruct (process_mails_sends env chatId email attResp ms r2 He) as [Ha Hw].
  assert (Hn : news (is_seen (userData (now r2)) chatId email) ms =
               news (is_seen (userData w) chatId email) ms).
  { apply news_ext. intros i. simpl.
    by rewrite is_seen_ensure_seen, is_seen_ensureUser. }
  rewrite Hn in Ha, Hw. by split.
Qed.

Lemma cycle_sends_in_provider_order_witness :
  plain_poll "x@a.test" two_mails = true ∧
  attempts (sent (Bot.cycle first_send_fails "7" "x@a.test" two_mails no_attachments
                    sample_world)) =
    [("7", notice "x@a.test" "2"); ("7", notice "x@a.test" "1")].
Proof.
  split; [reflexivity|].
  apply (cycle_sends_in_provider_order first_send_fails "7" "x@a.test" two_mails
           no_attachments sample_world).
  reflexivity.
Defined.

(** ** The sweep of one user *)

Section Sweep.
Import Bot.
Variables (env : Env) (chatId : string).
Variable prov : string -> http mail.
Variable attProv : string -> mail -> http attachment.

Lemma swept_nil c e i : swept chatId prov [] c e i = false.
Proof.
  unfold swept. apply bool_decide_eq_false_2. intros (_ & H & _).
  by apply elem_of_nil in H.
Qed.

Lemma swept_cons e0 l c e i :
  swept chatId prov (e0 :: l) c e i =
    hits chatId e0 (fetchEmailsForAddress e0 (prov e0)).1 c e i ||
    swept chatId prov l c e i.
Proof.
  unfold swept, hits. apply eq_true_iff_eq.
  rewrite orb_true_iff, !bool_decide_eq_true, elem_of_cons. split.
  - intros (Hc & [->|He] & Hi); auto.
  - intros [(Hc & -> & Hi)|(Hc & He & Hi)]; auto.
Qed.

Lemma poll_list_now l w :
  let w' := poll_list env chatId prov attProv l w in
  (∀ c e i, is_seen (userData w') c e i =
            is_seen (userData w) c e i || swept chatId prov l c e i) ∧
  (∀ c e i, notified c e i (sent w') =
            notified c e i (sent w) +
            (if negb (is_seen (userData w) c e i) && swept chatId prov l c e i
             then 1 else 0)).
Proof.
  revert w. induction l as [|e0 l IH]; intros w.
  - split; intros c e i; rewrite swept_nil; simpl.
    + by rewrite orb_false_r.
    + rewrite andb_false_r. lia.
  - rewrite poll_list_cons.
    destruct (cycle_now env chatId e0 (attProv e0) (prov e0) w) as [Hs Hn].
    destruct (IH (cycle env chatId e0 (prov e0) (attProv e0) w)) as [Hs2 Hn2].
    split; intros c e i; rewrite swept_cons.
    + rewrite Hs2, Hs. by rewrite orb_assoc.
    + rewrite Hn2, Hn, Hs.
      destruct (is_seen (userData w) c e i),
               (hits chatId e0 _ c e i), (swept chatId prov l c e i);
        simpl; lia.
Qed.

(** The memory after a cycle, against the memory before. *)
Lemma cycle_framed email resp attResp w :
  framed chatId email (fetchEmailsForAddress email resp).1
    (userData w) (userData (cycle env chatId email resp attResp w)).
Proof.
  set (ms := (fetchEmailsForAddress email resp).1).
  set (I := fun p : World => framed chatId email ms (userData w) (userData p)).
  destruct (cycle_rule env chatId email attResp ms I (fun _ => I))
    with (resp := resp) (w := w) as [H _]; try done; unfold I; simpl.
  - intros p Hp. eapply framed_trans; [done|]. apply framed_ensureUser.
  - intros p _ Hp. eapply framed_trans; [done|]. apply framed_ensure_seen.
  - intros p m Hm He _ Hp. eapply framed_trans; [done|]. by apply framed_mark_seen.
  - intros _ p. unfold saveData. by destruct (write_ok env _).
  - apply framed_refl.
Qed.

Lemma poll_list_frame l w :
  let w' := poll_list env chatId prov attProv l w in
  (∀ c, tracked (userData w') c = tracked (userData w) c) ∧
  (∀ c, c ≠ chatId → userData w' !! c = userData w !! c) ∧
  (∀ c e, e ∉ l → seen_entry (userData w') c e = seen_entry (userData w) c e).
Proof.
  revert w. induction l as [|e0 l IH]; intros w; [done|].
  rewrite poll_list_cons.
  destruct (cycle_framed e0 (prov e0) (attProv e0) w) as (_ & A & _ & B & C & _).
  destruct (IH (cycle env chatId e0 (prov e0) (attProv e0) w)) as (A2 & B2 & C2).
  split; [|split].
  - intros c. by rewrite A2, A.
  - intros c Hc. by rewrite B2, B.
  - intros c e He. rewrite not_elem_of_cons in He. destruct He as [He0 He].
    rewrite C2 by done. apply C. congruence.
Qed.

End Sweep.

(** X2.  A sweep of bot.js over one user's tracked addresses, these and
    the ids reported for them being plain keys, sends, for every user,
    address and message id, exactly one new notice when the address is
    tracked by the swept user, the provider reports the id for it and the id
    was not seen, and none otherwise, also when an address occurs twice in
    the list. *)
Theorem sweep_notifies_once :
  ∀ (env : Env) (chatId : string) (prov : string -> http mail)
    (attProv : string -> mail -> http attachment) (w : World) (c e i : string),
    plain_sweep prov (tracked (userData w) chatId) = true →
    notified c e i (sent (Bot.pollAllEmailsForUser env chatId prov attProv w)) =
    notified c e i (sent w) +
    (if negb (is_seen (userData w) c e i) &&
        swept chatId prov (tracked (userData w) chatId) c e i
     then 1 else 0).
Proof.
  intros env chatId prov attProv w c e i _. unfold Bot.pollAllEmailsForUser.
  simpl. rewrite tracked_ensureUser.
  destruct (poll_list_now env chatId prov attProv (tracked (userData w) chatId)
              (Bot.update (Bot.ensureUser chatId) w)) as [_ H].
  rewrite H. simpl. by rewrite is_seen_ensureUser.
Qed.

Lemma sweep_notifies_once_witness :
  plain_sweep (fun _ => two_mails) (tracked (userData seen_world) "7") = true ∧
  notified "7" "x@a.test" "2"
    (sent (Bot.pollAllEmailsForUser all_fine "7" (fun _ => two_mails)
             (fun _ => no_attachments) seen_world)) = 1 ∧
  notified "7" "x@a.test" "1"
    (sent (Bot.pollAllEmailsForUser all_fine "7" (fun _ => two_mails)
             (fun _ => no_attachments) seen_world)) = 0.
Proof.
  split; [reflexivity|]. split.
  - apply (sweep_notifies_once all_fine "7" (fun _ => two_mails)
             (fun _ => no_attachments) seen_world "7" "x@a.test" "2").
    reflexivity.
  - apply (sweep_notifies_once all_fine "7" (fun _ => two_mails)
             (fun _ => no_attachments) seen_world "7" "x@a.test" "1").
    reflexivity.
Defined.

(** X3.  A sweep of bot.js, the tracked addresses and the ids reported for
    them being plain keys, changes no tracked list, leaves every other
    user's record as it is, leaves alone the seen-set of every address the
    swept user does not track, and marks as seen exactly the ids the provider
    reports for the tracked addresses. *)
Theorem sweep_frame :
  ∀ (env : Env) (chatId : string) (prov : string -> http mail)
    (attProv : string -> mail -> http attachment) (w : World),
    plain_sweep prov (tracked (userData w) chatId) = true →
    let w' := Bot.pollAllEmailsForUser env chatId prov attProv w in
    (∀ c, tracked (userData w') c = tracked (userData w) c) ∧
    (∀ c, c ≠ chatId → userData w' !! c = userData w !! c) ∧
    (∀ c e, e ∉ tracked (userData w) chatId →
            seen_entry (userData w') c e = seen_entry (userData w) c e) ∧
    (∀ c e i, is_seen (userData w') c e i =
              is_seen (userData w) c e i ||
              swept chatId prov (tracked (userData w) chatId) c e i).
Proof.
  intros env chatId prov attProv w _. unfold Bot.pollAllEmailsForUser. simpl.
  rewrite tracked_ensureUser.
  set (l := tracked (userData w) chatId).
  destruct (poll_list_frame env chatId prov attProv l
              (Bot.update (Bot.ensureUser chatId) w)) as (A & B & C).
  destruct (poll_list_now env chatId prov attProv l
              (Bot.update (Bot.ensureUser chatId) w)) as [D _].
  simpl in *. split; [|split; [|split]].
  - intros c. by rewrite A, tracked_ensureUser.
  - intros c Hc. by rewrite B, ensureUser_other.
  - intros c e He. by rewrite C, seen_entry_ensureUser.
  - intros c e i. by rewrite D, is_seen_ensureUser.
Qed.

Lemma sweep_frame_witness :
  plain_sweep (fun _ => two_mails) (tracked (userData sample_world) "7") = true ∧
  ∀ c, tracked (userData (Bot.pollAllEmailsForUser all_fine "7" (fun _ => two_mails)
                            (fun _ => no_attachments) sample_world)) c =
       tracked (userData sample_world) c.
Proof.
  split; [reflexivity|].
  apply (sweep_frame all_fine "7" (fun _ => two_mails) (fun _ => no_attachments)
           sample_world).
  reflexivity.
Defined.

(** ** The import of bot.js *)

Section Cleaning.

Lemma drop_spaces_head_ok l : head_ok (drop_spaces l).
Proof.
  induction l as [|c l IH]; simpl; [done|].
  destruct (is_space c) eqn:E; [done|]. simpl. done.
Qed.

Lemma drop_spaces_id l : head_ok l → drop_spaces l = l.
Proof. destruct l as [|c l]; simpl; [done|]. by intros ->. Qed.

Lemma drop_spaces_keeps_last x c :
  is_space c = false → ∃ pre, drop_spaces (x ++ [c]) = pre ++ [c].
Proof.
  intros Hc. induction x as [|a x [pre IH]]; simpl.
  - rewrite Hc. by exists [].
  - destruct (is_space a); [by exists pre|]. by exists (a :: x).
Qed.

Lemma strip_end_head_ok d :
  head_ok d → head_ok (rev (drop_spaces (rev d))).
Proof.
  destruct d as [|c d]; simpl; [done|]. intros Hc.
  destruct (drop_spaces_keeps_last (rev d) c Hc) as [pre ->].
  by rewrite rev_app_distr.
Qed.

Lemma trim_idempotent s : trim (trim s) = trim s.
Proof.
  unfold trim. rewrite list_ascii_of_string_of_list_ascii.
  set (d := drop_spaces (list_ascii_of_string s)).
  assert (Hd : head_ok d) by apply drop_spaces_head_ok.
  rewrite (drop_spaces_id (rev (drop_spaces (rev d))))
    by (by apply strip_end_head_ok).
  rewrite rev_involutive.
  by rewrite (drop_spaces_id (drop_spaces (rev d))) by apply drop_spaces_head_ok.
Qed.

Lemma cleaned_spec l x :
  x ∈ cleaned l → x ≠ "" ∧ trim x = x ∧ ∃ y, y ∈ l ∧ x = trim y.
Proof.
  unfold cleaned. rewrite list_elem_of_In, filter_In, in_map_iff.
  intros [(y & <- & Hy) Hne]. split; [|split].
  - intros E. by rewrite E in Hne.
  - apply trim_idempotent.
  - exists y. by rewrite list_elem_of_In.
Qed.

Lemma fresh_of_NoDup l es : NoDup (fresh_of l es).
Proof.
  revert l. induction es as [|e es IH]; intros l; simpl; [apply NoDup_nil_2|].
  case_bool_decide as He; [apply IH|].
  apply NoDup_cons. split; [|apply IH].
  intros H. apply fresh_of_spec in H as [_ H]. apply H.
  rewrite elem_of_app, list_elem_of_singleton. by right.
Qed.

Lemma fresh_of_elem l es x : x ∈ fresh_of l es ↔ x ∈ es ∧ x ∉ l.
Proof.
  destruct (fresh_of_spec l es) as (A & B & _). split; [apply B|].
  intros [Hes Hl]. assert (H : x ∈ l ++ fresh_of l es) by (apply A; by right).
  rewrite elem_of_app in H. by destruct H.
Qed.

Lemma fresh_of_length l es : length (fresh_of l es) ≤ length es.
Proof.
  revert l. induction es as [|e es IH]; intros l; simpl; [done|].
  case_bool_decide.
  - specialize (IH l). lia.
  - specialize (IH (l ++ [e])). simpl. lia.
Qed.

End Cleaning.

(** X4.  The import of bot.js, given an ASCII text with at least one
    address after cleaning: the tracked list keeps its old content as a prefix and gains, each once,
    exactly the supplied addresses it lacked; every address it gains is
    non-empty and free of surrounding white space; the reply gives the number
    gained and the new length; no other user's list changes; the state is
    saved when the write succeeds. *)
Theorem import_appends_missing :
  ∀ (env : Env) (chatId text : string) (w : World) (cmd emailList : string),
    ascii_only text = true →
    take 2 (split_spaces (trim text)) = [cmd; emailList] →
    cleaned (split_commas emailList) ≠ [] →
    let es := cleaned (split_commas emailList) in
    let old := tracked (userData w) chatId in
    let w' := Bot.import_handler env chatId text w in
    ∃ added,
      tracked (userData w') chatId = old ++ added ∧
      NoDup added ∧
      (∀ x, x ∈ added ↔ x ∈ es ∧ x ∉ old) ∧
      (∀ x, x ∈ added → x ≠ "" ∧ trim x = x) ∧
      (∃ ok, sent w' =
             {| to := chatId;
                text := Reply (Imported (length added) (length old + length added));
                delivered := ok |} :: sent w) ∧
      (∀ c, c ≠ chatId → tracked (userData w') c = tracked (userData w) c) ∧
      (write_ok env (writes w) = true → disk w' = Snapshot (userData w')).
Proof.
  intros env chatId text w cmd emailList _ Hparts Hne es old w'.
  destruct (import_handler_reports_added env chatId text w cmd emailList Hparts Hne)
    as (A & (ok & B) & C).
  exists (fresh_of old es). split; [exact A|].
  split; [apply fresh_of_NoDup|].
  split; [intros x; apply fresh_of_elem|].
  split.
  { intros x Hx. apply fresh_of_elem in Hx as [Hx _].
    apply cleaned_spec in Hx. tauto. }
  split.
  { exists ok. fold w' in B. rewrite B. by rewrite length_app. }
  split; [|exact C].
  intros c Hc. unfold w'. rewrite import_handler_tracked, Hparts.
  by rewrite bool_decide_eq_false_2.
Qed.

Lemma import_appends_missing_witness :
  ∃ added,
    tracked (userData
      (Bot.import_handler all_fine "7" "/import  a@x.io,x@a.test,,a@x.io"
         sample_world)) "7" = ["x@a.test"] ++ added ∧
    NoDup added.
Proof.
  destruct (import_appends_missing all_fine "7" "/import  a@x.io,x@a.test,,a@x.io"
              sample_world "/import" "a@x.io,x@a.test,,a@x.io")
    as (added & A & B & _).
  - reflexivity.
  - reflexivity.
  - vm_compute. discriminate.
  - exists added. split; [exact A|exact B].
Defined.

(** ** The other handlers of bot.js *)

Section MoreHandlers.
Import Bot.
Variables (env : Env) (chatId : string).

Lemma filter_out_length e (l : list string) :
  (length (List.filter (fun x => negb (String.eqb x e)) l) <? length l) =
  bool_decide (e ∈ l).
Proof.
  assert (Hle : ∀ l' : list string,
            length (List.filter (fun x => negb (String.eqb x e)) l') ≤ length l').
  { intros l'. induction l' as [|a l' IH]; simpl; [done|].
    destruct (negb (String.eqb a e)); simpl; lia. }
  induction l as [|a l IH]; simpl; [done|].
  destruct (String.eqb a e) eqn:E; simpl.
  - apply String.eqb_eq in E. subst a.
    rewrite bool_decide_eq_true_2 by (by left).
    apply Nat.ltb_lt. specialize (Hle l). lia.
  - apply String.eqb_neq in E.
    change (S _ <? S _) with
      (length (List.filter (fun x => negb (String.eqb x e)) l) <? length l).
    rewrite IH. apply eq_true_iff_eq. rewrite !bool_decide_eq_true, elem_of_cons.
    split; [auto|]. intros [->|H]; done.
Qed.

End MoreHandlers.

(** X5.  The remove-address handler of bot.js, given an ASCII text with an
    address: every occurrence of the address leaves the tracked list, the rest keeps its
    order; the seen-set of the address is dropped and no other seen-set, list
    or user is touched; the state is saved; and the reply says "stopped" when
    the address was tracked and "not found" when it was not, the seen-set
    being dropped and the state saved in both cases. *)
Theorem delete_reports_whether_tracked :
  ∀ (env : Env) (chatId text : string) (w : World) (cmd part : string)
    (rest : list string),
    ascii_only text = true →
    split_spaces (trim text) = cmd :: part :: rest →
    let email := trim part in
    let old := tracked (userData w) chatId in
    let w' := Bot.delete_handler env chatId text w in
    tracked (userData w') chatId =
      List.filter (fun x => negb (String.eqb x email)) old ∧
    seen_entry (userData w') chatId email = None ∧
    (∀ c e, (c, e) ≠ (chatId, email) →
            seen_entry (userData w') c e = seen_entry (userData w) c e) ∧
    (∀ c, c ≠ chatId → tracked (userData w') c = tracked (userData w) c) ∧
    writes w' = S (writes w) ∧
    (write_ok env (writes w) = true → disk w' = Snapshot (userData w')) ∧
    (∃ ok, sent w' =
           {| to := chatId;
              text := Reply (if bool_decide (email ∈ old)
                             then Stopped email else NotFound email);
              delivered := ok |} :: sent w).
Proof.
  intros env chatId text w cmd part rest _ Hparts email old w'.
  destruct (delete_handler_forgets env chatId text w cmd part rest Hparts)
    as (A & _ & B & C & D & E).
  fold email in A, B, C, E. fold w' in A, B, C, D, E. fold old in A.
  split; [exact A|]. split; [exact B|]. split; [exact C|]. split; [exact D|].
  assert (Hlen : (length (tracked (userData
            (Bot.saveData env
               (Bot.update (forget_seen chatId email)
                  (Bot.update (drop_email chatId email)
                     (Bot.update (Bot.ensureUser chatId) w))))) chatId)
            <? length (tracked (userData (Bot.update (Bot.ensureUser chatId) w))
                         chatId)) = bool_decide (email ∈ old)).
  { rewrite userData_saveData. simpl.
    rewrite tracked_forget_seen, tracked_drop_email, !tracked_ensureUser.
    apply filter_out_length. }
  assert (Hw' : w' =
    Bot.sendTelegram env chatId
      (Reply (if bool_decide (email ∈ old) then Stopped email else NotFound email))
      (Bot.saveData env
         (Bot.update (forget_seen chatId email)
            (Bot.update (drop_email chatId email)
               (Bot.update (Bot.ensureUser chatId) w))))).
  { unfold w', Bot.delete_handler. rewrite Hparts. fold email. cbv zeta.
    rewrite Hlen. by destruct (bool_decide (email ∈ old)). }
  split; [|split; [exact E|]].
  - rewrite Hw'. simpl. unfold Bot.saveData. by destruct (write_ok env _).
  - rewrite Hw'. simpl. rewrite sent_saveData. simpl. eauto.
Qed.

Lemma delete_reports_whether_tracked_witness :
  ∃ ok, sent (Bot.delete_handler all_fine "7" "/delete  y@a.test" sample_world) =
        {| to := "7";
           text := Reply (if bool_decide ("y@a.test" ∈ tracked (userData sample_world) "7")
                          then Stopped "y@a.test" else NotFound "y@a.test");
           delivered := ok |} :: sent sample_world.
Proof.
  apply (delete_reports_whether_tracked all_fine "7" "/delete  y@a.test"
           sample_world "/delete" "y@a.test" []); reflexivity.
Defined.

(** X6.  Adding is idempotent in bot.js: running the add-address handler a
    second time on the same ASCII text changes neither the memory nor the file nor
    the number of writes, and, when the text carries an address, the second
    reply is "already tracking". *)
Theorem add_twice_is_add_once :
  ∀ (env env' : Env) (chatId text : string) (w : World),
    ascii_only text = true →
    let w1 := Bot.add_handler env chatId text w in
    let w2 := Bot.add_handler env' chatId text w1 in
    userData w2 = userData w1 ∧ disk w2 = disk w1 ∧ writes w2 = writes w1 ∧
    (∀ cmd part rest,
       split_spaces (trim text) = cmd :: part :: rest →
       ∃ ok, sent w2 =
             {| to := chatId; text := Reply (AlreadyTracking (trim part));
                delivered := ok |} :: sent w1).
Proof.
  intros env env' chatId text w _ w1 w2.
  assert (Hu1 : is_Some (userData w1 !! chatId)).
  { unfold w1, Bot.add_handler.
    destruct (split_spaces (trim text)) as [|cmd [|part rest]]; simpl;
      try apply ensureUser_is_Some.
    case_bool_decide; simpl; [apply ensureUser_is_Some|].
    rewrite userData_saveData. simpl. apply push_is_Some, ensureUser_is_Some. }
  destruct Hu1 as [u Hu1].
  assert (He : Bot.ensureUser chatId (userData w1) = userData w1)
    by (by apply ensureUser_known with u).
  destruct (split_spaces (trim text)) as [|cmd [|part rest]] eqn:Hparts.
  - unfold w2, Bot.add_handler. rewrite Hparts. simpl. rewrite He.
    repeat split. intros ??? [=].
  - unfold w2, Bot.add_handler. rewrite Hparts. simpl. rewrite He.
    repeat split. intros ??? [=].
  - assert (Hin : trim part ∈ tracked (userData w1) chatId).
    { unfold w1. rewrite add_handler_tracked, Hparts.
      case_bool_decide as H.
      - rewrite elem_of_app, list_elem_of_singleton. by right.
      - destruct (decide (trim part ∈ tracked (userData w) chatId)); [done|].
        exfalso. by apply H. }
    unfold w2, Bot.add_handler. rewrite Hparts. simpl.
    rewrite He, bool_decide_eq_true_2 by done. simpl.
    repeat split; [done|]. intros cmd' part' rest' [= <- <- <-]. eauto.
Qed.

Lemma add_twice_is_add_once_witness :
  let w1 := Bot.add_handler all_fine "7" "/add y@a.test " sample_world in
  let w2 := Bot.add_handler all_fine "7" "/add y@a.test " w1 in
  ascii_only "/add y@a.test " = true ∧
  userData w2 = userData w1 ∧ disk w2 = disk w1 ∧ writes w2 = writes w1.
Proof.
  intros w1 w2. split; [reflexivity|].
  destruct (add_twice_is_add_once all_fine all_fine "7" "/add y@a.test " sample_world)
    as (A & B & C & _); [reflexivity|].
  split; [exact A|]. split; [exact B|exact C].
Defined.

(** X7.  In bot.js the handlers add-address, import and remove-address and
    the sweep of a user leave every tracked list without duplicates when it
    had none. *)
Theorem duplicate_free_lists_stay_so :
  ∀ (env : Env) (chatId : string) (w : World) (c : string),
    NoDup (tracked (userData w) c) →
    (∀ text, NoDup (tracked (userData (Bot.add_handler env chatId text w)) c)) ∧
    (∀ text, NoDup (tracked (userData (Bot.import_handler env chatId text w)) c)) ∧
    (∀ text, NoDup (tracked (userData (Bot.delete_handler env chatId text w)) c)) ∧
    (∀ prov attProv,
       NoDup (tracked (userData (Bot.pollAllEmailsForUser env chatId prov attProv w)) c)).
Proof.
  intros env chatId w c Hnd.
  destruct (no_duplicates_preserved env chatId w c Hnd) as (A & B & C & _).
  split; [exact A|]. split; [exact B|]. split; [exact C|].
  intros prov attProv. unfold Bot.pollAllEmailsForUser. simpl.
  destruct (poll_list_frame env chatId prov attProv
              (tracked (Bot.ensureUser chatId (userData w)) chatId)
              (Bot.update (Bot.ensureUser chatId) w)) as [H _].
  rewrite H. simpl. by rewrite tracked_ensureUser.
Qed.

Lemma duplicate_free_lists_stay_so_witness :
  NoDup (tracked (userData sample_world) "7") ∧
  NoDup (tracked (userData
    (Bot.import_handler all_fine "7" "/import x@a.test,b@b.test,b@b.test"
       sample_world)) "7").
Proof.
  assert (H : NoDup (tracked (userData sample_world) "7"))
    by (vm_compute; apply NoDup_singleton).
  split; [exact H|].
  apply (duplicate_free_lists_stay_so all_fine "7" sample_world "7" H).
Defined.

(** X8.  The create-address handler of bot.js.  When the provider yields no
    domain (the request fails, the answer has another shape, or the list is
    empty) nothing is tracked and nothing is written, and the user is told
    so.  Otherwise exactly one address, the generated one, is appended to the
    user's list, no other list and no seen-set changes, the state is saved
    once and the reply carries the address. *)
Theorem create_address_outcome :
  ∀ (env : Env) (chatId : string) (resp : http string) (r36 : string) (k : nat)
    (w : World),
    let ds := (Bot.getDomains resp).1 in
    let w' := Bot.new_handler env chatId resp r36 k w in
    (ds = [] →
       (∀ c, tracked (userData w') c = tracked (userData w) c) ∧
       disk w' = disk w ∧ writes w' = writes w ∧
       ∃ ok, sent w' = {| to := chatId; text := Reply NoDomains; delivered := ok |}
                       :: sent w) ∧
    (ds ≠ [] →
       tracked (userData w') chatId =
         tracked (userData w) chatId ++ [Bot.generateRandomEmail r36 k ds] ∧
       (∀ c, c ≠ chatId → tracked (userData w') c = tracked (userData w) c) ∧
       (∀ c e, seen_entry (userData w') c e = seen_entry (userData w) c e) ∧
       writes w' = S (writes w) ∧
       (write_ok env (writes w) = true → disk w' = Snapshot (userData w')) ∧
       ∃ ok, sent w' =
             {| to := chatId;
                text := Reply (Created (Bot.generateRandomEmail r36 k ds));
                delivered := ok |} :: sent w).
Proof.
  intros env chatId resp r36 k w ds w'. unfold w', Bot.new_handler. subst ds.
  destruct (Bot.getDomains resp) as [ds errs]. simpl.
  destruct ds as [|d ds]; (split; [intros Hds|intros Hds]); try done.
  - simpl. split; [intros c; apply tracked_ensureUser|]. eauto.
  - simpl. rewrite userData_saveData, sent_saveData. simpl.
    split; [by rewrite tracked_push, tracked_ensureUser by apply ensureUser_is_Some|].
    split.
    { intros c Hc. by rewrite tracked_push_other, tracked_ensureUser. }
    split.
    { intros c e. by rewrite seen_entry_push, seen_entry_ensureUser. }
    unfold Bot.saveData. simpl.
    destruct (write_ok env (writes w)); simpl; eauto.
    repeat split; eauto. done.
Qed.

(** X9.  The address bot.js generates from a draw rendered as ["0."]
    followed by base-36 digits has a local part of at most eight characters;
    when the rendering has at least eight digits and the index is within the
    list, the address is the first eight digits, [@], and the domain at that
    index. *)
Theorem generated_address_shape :
  ∀ (digits : string) (k : nat) (domains : list string),
    all_base36 digits = true →
    String.length
      (local_part (Bot.generateRandomEmail ("0." ++ digits)%string k domains)) ≤ 8 ∧
    (8 ≤ String.length digits → k < length domains →
       ∃ d, domains !! k = Some d ∧
            Bot.generateRandomEmail ("0." ++ digits)%string k domains =
              (substring 0 8 digits ++ "@" ++ d)%string ∧
            String.length (substring 0 8 digits) = 8 ∧
            all_base36 (substring 0 8 digits) = true ∧
            local_part (Bot.generateRandomEmail ("0." ++ digits)%string k domains) =
              substring 0 8 digits).
Proof.
  intros digits k domains Hd. split; [by apply generateRandomEmail_short|].
  intros Hlen Hk.
  destruct (lookup_lt_is_Some_2 domains k Hk) as [d Hdk].
  exists d. split; [done|].
  assert (Hnth : nth k domains "undefined" = d) by (by apply nth_lookup_Some).
  assert (Hgen : Bot.generateRandomEmail ("0." ++ digits)%string k domains =
                 (substring 0 8 digits ++ "@" ++ d)%string).
  { unfold Bot.generateRandomEmail. by rewrite Hnth. }
  split; [done|]. split; [by apply substring_0_length|].
  split; [by apply substring_0_base36|].
  rewrite Hgen. apply local_part_append. by apply substring_0_base36.
Qed.

Lemma generated_address_shape_witness :
  String.length
    (local_part (Bot.generateRandomEmail ("0." ++ "4fzyo82mvyr")%string 1
                   ["a.test"; "b.test"])) ≤ 8.
Proof.
  apply (generated_address_shape "4fzyo82mvyr" 1 ["a.test"; "b.test"]).
  reflexivity.
Defined.

(** ** Failures of delivery and of the file *)

Section Failures.
Import Bot.
Variables (env env' : Env) (chatId : string).

Lemma cycle_same_attempts email resp attResp w w' :
  same_attempts w w' →
  same_attempts (cycle env chatId email resp attResp w)
                (cycle env' chatId email resp attResp w').
Proof.
  intros H. unfold cycle, checkEmailInbox.
  destruct (fetchEmailsForAddress email resp) as [ms errs].
  assert (H2 : same_attempts
    (now (tick (update (ensure_seen chatId email))
            (tick (log errs) (tick (update (ensureUser chatId)) (start w)))))
    (now (tick (update (ensure_seen chatId email))
            (tick (log errs) (tick (update (ensureUser chatId)) (start w')))))).
  { simpl. by apply same_attempts_update, same_attempts_log, same_attempts_update. }
  revert H2. generalize (tick (update (ensure_seen chatId email))
            (tick (log errs) (tick (update (ensureUser chatId)) (start w)))).
  generalize (tick (update (ensure_seen chatId email))
            (tick (log errs) (tick (update (ensureUser chatId)) (start w')))).
  induction ms as [|m ms IH]; intros r' r H2; [done|].
  simpl. apply IH. by apply same_attempts_process_mail.
Qed.

Lemma poll_list_same_attempts prov attProv l w w' :
  same_attempts w w' →
  same_attempts (poll_list env chatId prov attProv l w)
                (poll_list env' chatId prov attProv l w').
Proof.
  unfold poll_list. revert w w'.
  induction l as [|e l IH]; intros w w' H; [done|].
  simpl. apply IH. by apply cycle_same_attempts.
Qed.

Lemma is_seen_load v c e i :
  is_seen (userData (load v)) c e i = seen_on_disk (disk v) c e i.
Proof. unfold load. by destruct (disk v). Qed.

Lemma sent_load v : sent (load v) = sent v.
Proof. unfold load. by destruct (disk v). Qed.


End Failures.

(** X10.  In bot.js the messages a sweep attempts to send, their order, and
    the state it leaves in memory are the same whichever deliveries and file
    writes fail: a failed delivery or write stops nothing. *)
Theorem sweep_ignores_failures :
  ∀ (env env' : Env) (chatId : string) (prov : string -> http mail)
    (attProv : string -> mail -> http attachment) (w : World),
    userData (Bot.pollAllEmailsForUser env chatId prov attProv w) =
    userData (Bot.pollAllEmailsForUser env' chatId prov attProv w) ∧
    attempts (sent (Bot.pollAllEmailsForUser env chatId prov attProv w)) =
    attempts (sent (Bot.pollAllEmailsForUser env' chatId prov attProv w)).
Proof.
  intros env env' chatId prov attProv w. unfold Bot.pollAllEmailsForUser.
  by apply poll_list_same_attempts.
Qed.

(** X11.  After a restart of bot.js, a cycle at a plain address with plain
    fetched ids notifies exactly the fetched messages that the file does not
    mark as seen, whatever the memory held before the restart: for every id
    the number of notices grows by one when the id is fetched and not seen in
    the file, and stays otherwise.  A missing or unreadable file marks
    nothing. *)
Theorem restart_notifies_what_the_file_lacks :
  ∀ (env : Env) (chatId email : string) (resp : http mail)
    (attResp : mail -> http attachment) (v : World) (c e i : string),
    plain_poll email resp = true →
    notified c e i
      (sent (Bot.cycle env chatId email resp attResp (Bot.load v))) =
    notified c e i (sent v) +
    (if negb (seen_on_disk (disk v) c e i) &&
        hits chatId email (Bot.fetchEmailsForAddress email resp).1 c e i
     then 1 else 0).
Proof.
  intros env chatId email resp attResp v c e i _.
  destruct (cycle_now env chatId email attResp resp (Bot.load v)) as [_ H].
  by rewrite H, is_seen_load, sent_load.
Qed.

Lemma restart_notifies_what_the_file_lacks_witness :
  let v := {| userData := userData seen_world; disk := Garbage; sent := [];
              writes := 0; console := [] |} in
  plain_poll "x@a.test" two_mails = true ∧
  notified "7" "x@a.test" "1"
    (sent (Bot.cycle all_fine "7" "x@a.test" two_mails no_attachments (Bot.load v))) = 1.
Proof.
  intros v. split; [reflexivity|].
  apply (restart_notifies_what_the_file_lacks all_fine "7" "x@a.test" two_mails
           no_attachments v "7" "x@a.test" "1").
  reflexivity.
Defined.



(** ** Removing and adding again *)

Section ReAdd.
Import Bot.
Variables (chatId : string).

Lemma delete_handler_sent env text w c e i :
  notified c e i (sent (delete_handler env chatId text w)) = notified c e i (sent w).
Proof.
  unfold delete_handler.
  destruct (split_spaces (trim text)) as [|cmd [|part rest]]; simpl; try done.
  match goal with |- context [if ?b then _ else _] => destruct b end;
    simpl; by rewrite sent_saveData.
Qed.

Lemma add_handler_sent env text w c e i :
  notified c e i (sent (add_handler env chatId text w)) = notified c e i (sent w).
Proof.
  unfold add_handler.
  destruct (split_spaces (trim text)) as [|cmd [|part rest]]; simpl; try done.
  case_bool_decide; simpl; [done|]. by rewrite sent_saveData.
Qed.

Lemma add_handler_seen env text w c e :
  seen_entry (userData (add_handler env chatId text w)) c e =
  seen_entry (userData w) c e.
Proof.
  unfold add_handler.
  destruct (split_spaces (trim text)) as [|cmd [|part rest]]; simpl;
    try apply seen_entry_ensureUser.
  case_bool_decide; simpl; [apply seen_entry_ensureUser|].
  rewrite userData_saveData. simpl.
  by rewrite seen_entry_push, seen_entry_ensureUser.
Qed.

End ReAdd.

(** X13.  In bot.js, after an address is removed and added again by ASCII
    texts, a poll of it, the address and the fetched ids being plain keys,
    notifies every message the provider reports, whether or not the message
    had been notified before the removal: the address is tracked again, and
    for every fetched id the number of notices grows by exactly one. *)
Theorem readding_after_removal_notifies_again :
  ∀ (env1 env2 env3 : Env) (chatId text1 text2 : string) (w : World)
    (cmd1 part1 cmd2 part2 : string) (rest1 rest2 : list string)
    (resp : http mail) (attResp : mail -> http attachment) (i : string),
    ascii_only text1 = true → ascii_only text2 = true →
    split_spaces (trim text1) = cmd1 :: part1 :: rest1 →
    split_spaces (trim text2) = cmd2 :: part2 :: rest2 →
    trim part1 = trim part2 →
    plain_poll (trim part1) resp = true →
    let email := trim part1 in
    let w1 := Bot.delete_handler env1 chatId text1 w in
    let w2 := Bot.add_handler env2 chatId text2 w1 in
    let w3 := Bot.cycle env3 chatId email resp attResp w2 in
    tracked (userData w2) chatId =
      List.filter (fun x => negb (String.eqb x email)) (tracked (userData w) chatId)
      ++ [email] ∧
    notified chatId email i (sent w3) =
      notified chatId email i (sent w) +
      (if bool_decide (i ∈ ids (Bot.fetchEmailsForAddress email resp).1)
       then 1 else 0).
Proof.
  intros env1 env2 env3 chatId text1 text2 w cmd1 part1 cmd2 part2 rest1 rest2
    resp attResp i _ _ H1 H2 Heq _ email w1 w2 w3.
  destruct (delete_handler_forgets env1 chatId text1 w cmd1 part1 rest1 H1)
    as (A & B & C & _).
  fold email in A, B, C. fold w1 in A, B, C.
  split.
  - unfold w2. rewrite add_handler_tracked, H2, <- Heq. fold email.
    rewrite bool_decide_eq_true_2 by done. by rewrite A.
  - destruct (cycle_now env3 chatId email attResp resp w2) as [_ H].
    fold w3 in H. rewrite H. unfold w2 at 1.
    rewrite add_handler_sent. unfold w1 at 1. rewrite delete_handler_sent.
    assert (Hs : is_seen (userData w2) chatId email i = false).
    { rewrite is_seen_entry. unfold w2. by rewrite add_handler_seen, C. }
    rewrite Hs. simpl. unfold hits. f_equal.
    assert (E : bool_decide (chatId = chatId ∧ email = email ∧
                   i ∈ ids (Bot.fetchEmailsForAddress email resp).1) =
                bool_decide (i ∈ ids (Bot.fetchEmailsForAddress email resp).1)).
    { apply eq_true_iff_eq. rewrite !bool_decide_eq_true. tauto. }
    by rewrite E.
Qed.

Lemma readding_after_removal_notifies_again_witness :
  let w1 := Bot.delete_handler all_fine "7" "/delete x@a.test" seen_world in
  let w2 := Bot.add_handler all_fine "7" "/add x@a.test" w1 in
  let w3 := Bot.cycle all_fine "7" "x@a.test" two_mails no_attachments w2 in
  ascii_only "/delete x@a.test" = true ∧ ascii_only "/add x@a.test" = true ∧
  plain_poll (trim "x@a.test") two_mails = true ∧
  notified "7" "x@a.test" "1" (sent w3) =
    notified "7" "x@a.test" "1" (sent seen_world) +
    (if bool_decide ("1" ∈ ids (Bot.fetchEmailsForAddress "x@a.test" two_mails).1)
     then 1 else 0).
Proof.
  split; [reflexivity|]. split; [reflexivity|]. split; [reflexivity|].
  apply (readding_after_removal_notifies_again all_fine all_fine all_fine "7"
           "/delete x@a.test" "/add x@a.test" seen_world
           "/delete" "x@a.test" "/add" "x@a.test" [] [] two_mails no_attachments "1");
    reflexivity.
Defined.

(** ** The variants *)

Section Variants.
Variables (env : Env) (chatId : string).

Lemma variant_import_loop es w :
  let st := import_loop chatId es (Bot.ensureUser chatId (userData w)) in
  tracked st.1 chatId =
    tracked (userData w) chatId ++ fresh_of (tracked (userData w) chatId) es ∧
  (∀ c, c ≠ chatId → tracked st.1 c = tracked (userData w) c) ∧
  (∀ c e, seen_entry st.1 c e = seen_entry (userData w) c e).
Proof.
  destruct (import_loop_from chatId es (Bot.ensureUser chatId (userData w)) 0)
    as (A & _ & _ & D & E); [apply ensureUser_is_Some|].
  unfold import_loop. simpl. rewrite tracked_ensureUser in A.
  split; [exact A|]. split.
  - intros c Hc. by rewrite D, tracked_ensureUser.
  - intros c e. by rewrite E, seen_entry_ensureUser.
Qed.

End Variants.

(** X14.  The import of backup.js, given an ASCII argument, appends, each
    once, the cleaned addresses the list lacked, and replies with the number of cleaned addresses
    supplied, which is at least the number appended and larger whenever one
    of them was tracked already or supplied twice. *)
Theorem backup_import_counts_supplied :
  ∀ (env : Env) (chatId arg : string) (w : World),
    ascii_only arg = true →
    let es := cleaned (split_commas arg) in
    let old := tracked (userData w) chatId in
    let w' := Backup.import_handler env chatId arg w in
    tracked (userData w') chatId = old ++ fresh_of old es ∧
    (∀ x, x ∈ fresh_of old es ↔ x ∈ es ∧ x ∉ old) ∧
    NoDup (fresh_of old es) ∧
    length (fresh_of old es) ≤ length es ∧
    (∃ ok, sent w' =
           {| to := chatId; text := Reply (ImportedCount (length es));
              delivered := ok |} :: sent w) ∧
    ((∃ x, x ∈ es ∧ x ∈ old) → length (fresh_of old es) < length es).
Proof.
  intros env chatId arg w _ es old w'.
  destruct (variant_import_loop chatId es w) as (A & _ & _).
  assert (Hw' : w' =
    Bot.sendTelegram env chatId (Reply (ImportedCount (length es)))
      (Bot.saveData env
         (Bot.update (fun _ => (import_loop chatId es
                                  (Bot.ensureUser chatId (userData w))).1)
            (Bot.update (Bot.ensureUser chatId) w)))).
  { unfold w', Backup.import_handler. fold es. simpl.
    by destruct (import_loop chatId es (Bot.ensureUser chatId (userData w))). }
  split.
  { rewrite Hw'. simpl. by rewrite userData_saveData. }
  split; [intros x; apply fresh_of_elem|].
  split; [apply fresh_of_NoDup|].
  split; [apply fresh_of_length|].
  split.
  { rewrite Hw'. simpl. rewrite sent_saveData. simpl. eauto. }
  intros (x & Hes & Hold). clear Hw' A.
  revert Hes Hold. generalize old. clear.
  induction es as [|e es IH]; intros l Hes Hold; simpl.
  { by apply elem_of_nil in Hes. }
  case_bool_decide as He.
  - pose proof (fresh_of_length l es). lia.
  - apply elem_of_cons in Hes as [->|Hes]; [done|].
    assert (length (fresh_of (l ++ [e]) es) < length es); [|simpl; lia].
    apply IH; [done|]. rewrite elem_of_app. by left.
Qed.

Lemma backup_import_counts_supplied_witness :
  ascii_only " x@a.test, b@b.test" = true ∧
  tracked (userData (Backup.import_handler all_fine "7" " x@a.test, b@b.test"
                       sample_world)) "7" =
    tracked (userData sample_world) "7" ++
    fresh_of (tracked (userData sample_world) "7")
      (cleaned (split_commas " x@a.test, b@b.test")).
Proof.
  split; [reflexivity|].
  apply (backup_import_counts_supplied all_fine "7" " x@a.test, b@b.test" sample_world).
  reflexivity.
Defined.

(** X15.  The remove-address handler of bot2.js, given an ASCII argument,
    never drops a seen-set: it takes the address off the tracked list, saves, and replies "removed"
    whether or not the address was tracked, and every seen-set in memory is
    what it was. *)
Theorem bot2_delete_never_forgets :
  ∀ (env : Env) (chatId arg : string) (w : World),
    ascii_only arg = true →
    let email := trim arg in
    let w' := Bot2.delete_handler env chatId arg w in
    tracked (userData w') chatId =
      List.filter (fun x => negb (String.eqb x email)) (tracked (userData w) chatId) ∧
    (∀ c e, seen_entry (userData w') c e = seen_entry (userData w) c e) ∧
    (∀ c e i, is_seen (userData w') c e i = is_seen (userData w) c e i) ∧
    attempts (sent w') = (chatId, Reply (Removed email)) :: attempts (sent w).
Proof.
  intros env chatId arg w _ email w'. unfold w', Bot2.delete_handler. fold email.
  simpl. rewrite userData_saveData, sent_saveData. simpl.
  assert (Hs : ∀ c e,
            seen_entry (drop_email chatId email
                          (Bot.ensureUser chatId (userData w))) c e =
            seen_entry (userData w) c e).
  { intros c e. by rewrite seen_entry_drop_email, seen_entry_ensureUser. }
  split; [by rewrite tracked_drop_email, tracked_ensureUser|].
  split; [exact Hs|]. split; [|done].
  intros c e i. by rewrite !is_seen_entry, Hs.
Qed.

Lemma bot2_delete_never_forgets_witness :
  ascii_only "x@a.test " = true ∧
  tracked (userData (Bot2.delete_handler all_fine "7" "x@a.test " seen_world)) "7" = [] ∧
  is_seen (userData (Bot2.delete_handler all_fine "7" "x@a.test " seen_world))
    "7" "x@a.test" "1" = true.
Proof.
  split; [reflexivity|].
  destruct (bot2_delete_never_forgets all_fine "7" "x@a.test " seen_world)
    as (A & _ & B & _); [reflexivity|].
  split; [exact A|]. rewrite B. reflexivity.
Defined.

(** ** At most one notice in bot2.js *)

Section Bot2Cycle.
Variables (env : Env) (chatId email : string).
Variable attResp : mail -> http attachment.

Lemma within_refl ms w : within chatId email ms w w.
Proof.
  split; [done|]. split; [by left|]. split; [|intros c e i H; lia].
  intros c e i. split; [done|lia].
Qed.

Lemma within_same ms w w1 w2 :
  userData w2 = userData w1 → (∀ c e i, notified c e i (sent w2) = notified c e i (sent w1)) →
  within chatId email ms w w1 → within chatId email ms w w2.
Proof.
  intros Hu Hn (A & B & C & D). unfold within. rewrite Hu.
  split; [done|]. split; [done|]. split.
  - intros c e i. rewrite Hn. apply C.
  - intros c e i. rewrite Hn. apply D.
Qed.

Lemma within_weaken m ms w w' :
  within chatId email ms w w' → within chatId email (m :: ms) w w'.
Proof.
  intros (A & B & C & D). split; [done|]. split; [|split; [|done]].
  - intros c e i H. destruct (B _ _ _ H) as [?|H']; [by left|right].
    by rewrite (hits_cons chatId email attResp), H', orb_true_r.
  - intros c e i. destruct (C c e i) as [C1 C2]. split; [done|].
    rewrite (hits_cons chatId email attResp).
    destruct (is_seen (userData w) c e i), (hits chatId email ms c e i),
             (bool_decide (c = chatId ∧ e = email ∧ i = mail_id m));
      simpl in *; lia.
Qed.

(** One message processed as bot.js and bot2.js both do (mark, then one
    notice), followed by a stretch within [ms]. *)
Lemma within_step m ms w w1 w' :
  (∀ c e i, is_seen (userData w1) c e i =
            is_seen (userData w) c e i ||
            bool_decide (c = chatId ∧ e = email ∧ i = mail_id m)) →
  (∀ c e i, notified c e i (sent w1) =
            notified c e i (sent w) +
            (if negb (is_seen (userData w) c e i) &&
                bool_decide (c = chatId ∧ e = email ∧ i = mail_id m)
             then 1 else 0)) →
  within chatId email ms w1 w' → within chatId email (m :: ms) w w'.
Proof.
  intros Hs Hn (A & B & C & D). split; [|split; [|split]].
  - intros c e i H. apply A. by rewrite Hs, H.
  - intros c e i H. rewrite (hits_cons chatId email attResp).
    destruct (B _ _ _ H) as [H'|H'].
    + rewrite Hs in H'. apply orb_true_iff in H' as [?|H']; [by left|right].
      by rewrite H'.
    + right. by rewrite H', orb_true_r.
  - intros c e i. destruct (C c e i) as [C1 C2].
    rewrite Hn, Hs in *. rewrite (hits_cons chatId email attResp).
    destruct (is_seen (userData w) c e i), (hits chatId email ms c e i),
             (bool_decide (c = chatId ∧ e = email ∧ i = mail_id m));
      simpl in *; lia.
  - intros c e i H.
    destruct (decide (notified c e i (sent w1) < notified c e i (sent w')))
      as [Hlt|Hge]; [by apply D|].
    destruct (C c e i) as [C1 _].
    assert (Hlt : notified c e i (sent w) < notified c e i (sent w1)) by lia.
    rewrite Hn in Hlt. apply A. rewrite Hs.
    destruct (is_seen (userData w) c e i); [done|].
    destruct (bool_decide (c = chatId ∧ e = email ∧ i = mail_id m)); [done|].
    simpl in Hlt. lia.
Qed.

Lemma bot2_attachments atts o :
  let o' := fold_left
              (fun o a => Bot2.and_then o (fun r =>
                 Bot2.await_send env chatId (Bot2.attachment_note a) r)) atts o in
  userData (now (run_of o')) = userData (now (run_of o)) ∧
  ∀ c e i, notified c e i (sent (now (run_of o'))) =
           notified c e i (sent (now (run_of o))).
Proof.
  revert o. induction atts as [|a atts IH]; intros o; simpl; [done|].
  destruct (IH (Bot2.and_then o (fun r =>
              Bot2.await_send env chatId (Bot2.attachment_note a) r))) as [A B].
  assert (H : userData (now (run_of (Bot2.and_then o (fun r =>
                Bot2.await_send env chatId (Bot2.attachment_note a) r)))) =
              userData (now (run_of o)) ∧
              ∀ c e i, notified c e i (sent (now (run_of (Bot2.and_then o (fun r =>
                Bot2.await_send env chatId (Bot2.attachment_note a) r))))) =
                       notified c e i (sent (now (run_of o)))).
  { destruct o as [r|r]; simpl; [|done].
    unfold Bot2.await_send. by destruct (Bot2.rejected _). }
  destruct H as [H1 H2]. split; [by rewrite A|].
  intros c e i. by rewrite B.
Qed.

(** What bot2.js has done to one message when its loop body ends, normally
    or not: the same mark and the same single notice as in bot.js. *)
Lemma bot2_process_mail r m :
  has_entry (userData (now r)) chatId email →
  let r' := run_of (Bot2.process_mail env chatId email attResp r m) in
  has_entry (userData (now r')) chatId email ∧
  (∀ c e i, is_seen (userData (now r')) c e i =
            is_seen (userData (now r)) c e i ||
            bool_decide (c = chatId ∧ e = email ∧ i = mail_id m)) ∧
  (∀ c e i, notified c e i (sent (now r')) =
            notified c e i (sent (now r)) +
            (if negb (is_seen (userData (now r)) c e i) &&
                bool_decide (c = chatId ∧ e = email ∧ i = mail_id m)
             then 1 else 0)).
Proof.
  intros He. unfold Bot2.process_mail.
  destruct (is_seen (userData (now r)) chatId email (mail_id m)) eqn:Hseen; simpl.
  - split; [done|]. split; intros c e i; case_bool_decide as Hd.
    + destruct Hd as (-> & -> & ->). by rewrite Hseen.
    + by rewrite orb_false_r.
    + destruct Hd as (-> & -> & ->). rewrite Hseen. simpl. lia.
    + rewrite andb_false_r. lia.
  - set (r1 := tick (Bot.update (Bot.mark_seen chatId email (mail_id m))) r).
    set (r2 := tick (Bot2.sendMessage env chatId (Bot2.compose email m)) r1).
    assert (Hu2 : userData (now r2) =
                  Bot.mark_seen chatId email (mail_id m) (userData (now r))) by done.
    assert (Hn2 : ∀ c e i, notified c e i (sent (now r2)) =
                  notified c e i (sent (now r)) +
                  (if negb (is_seen (userData (now r)) c e i) &&
                      bool_decide (c = chatId ∧ e = email ∧ i = mail_id m)
                   then 1 else 0)).
    { intros c e i. simpl.
      assert (Hn : is_notice c e i
                {| to := chatId; text := Bot2.compose email m;
                   delivered := deliver env (length (sent (now r))) |} =
                bool_decide (c = chatId ∧ e = email ∧ i = mail_id m)).
      { unfold is_notice, Bot2.compose. simpl.
        apply eq_true_iff_eq. rewrite !andb_true_iff, !bool_decide_eq_true.
        intuition congruence. }
      rewrite Hn. case_bool_decide as Hd.
      - destruct Hd as (-> & -> & ->). rewrite Hseen. simpl. lia.
      - rewrite andb_false_r. lia. }
    assert (Hfinal : ∀ r', userData (now r') = userData (now r2) →
              (∀ c e i, notified c e i (sent (now r')) =
                        notified c e i (sent (now r2))) →
              has_entry (userData (now r')) chatId email ∧
              (∀ c e i, is_seen (userData (now r')) c e i =
                        is_seen (userData (now r)) c e i ||
                        bool_decide (c = chatId ∧ e = email ∧ i = mail_id m)) ∧
              (∀ c e i, notified c e i (sent (now r')) =
                        notified c e i (sent (now r)) +
                        (if negb (is_seen (userData (now r)) c e i) &&
                            bool_decide (c = chatId ∧ e = email ∧ i = mail_id m)
                         then 1 else 0))).
    { intros r' Hu Hn. rewrite Hu, Hu2. split; [by apply has_entry_mark_seen|].
      split.
      - intros c e i. by apply is_seen_mark_seen.
      - intros c e i. by rewrite Hn, Hn2. }
    unfold Bot2.await_send. fold r1. fold r2.
    destruct (Bot2.rejected (now r2)); cbn [run_of Bot2.and_then].
    { by apply (Hfinal r2). }
    assert (Hsave : ∀ r3, userData (now r3) = userData (now r2) →
              (∀ c e i, notified c e i (sent (now r3)) =
                        notified c e i (sent (now r2))) →
              userData (now (tick (Bot.saveData env) r3)) = userData (now r2) ∧
              ∀ c e i, notified c e i (sent (now (tick (Bot.saveData env) r3))) =
                       notified c e i (sent (now r2))).
    { intros r3 Hu Hn. simpl. rewrite userData_saveData, sent_saveData. by split. }
    destruct (mail_hasAttachments m).
    + unfold Bot2.for_of.
      destruct (Bot2.fetch (attResp m)) as [ok res|atts|n|];
        cbn [run_of Bot2.and_then]; try (by apply (Hfinal r2));
        [|set (atts := repeat Bot2.undefined_attachment n)];
        (destruct (bot2_attachments atts (Bot2.Normal r2)) as [A B];
         cbn [run_of] in A, B;
         destruct (fold_left _ atts (Bot2.Normal r2)) as [r3|r3];
         cbn [run_of Bot2.and_then] in *;
         [destruct (Hsave r3 A B) as [A' B']; by apply Hfinal|by apply Hfinal]).
    + cbn [run_of Bot2.and_then].
      destruct (Hsave r2) as [A' B']; try done. by apply Hfinal.
Qed.

Lemma bot2_process_mails ms o :
  has_entry (userData (now (run_of o))) chatId email →
  let o' := fold_left
              (fun o x => Bot2.and_then o (fun r =>
                 Bot2.process_mail env chatId email attResp r x)) ms o in
  within chatId email ms (now (run_of o)) (now (run_of o')).
Proof.
  revert o. induction ms as [|m ms IH]; intros o He; simpl.
  { apply within_refl. }
  destruct o as [r|r]; simpl in *.
  - destruct (bot2_process_mail r m He) as (He1 & Hs1 & Hn1).
    eapply within_step; [exact Hs1|exact Hn1|]. by apply IH.
  - apply within_weaken. by apply (IH (Bot2.Thrown r)).
Qed.

(** One cycle of bot2.js. *)
Lemma bot2_cycle_within resp w :
  within chatId email (items (Bot2.fetch resp)) w
    (Bot2.cycle env chatId email resp attResp w).
Proof.
  unfold Bot2.cycle, Bot2.checkEmailInbox.
  set (r1 := tick (Bot.update (Bot.ensure_seen chatId email))
               (tick (Bot.update (Bot.ensureUser chatId)) (start w))).
  assert (He : has_entry (userData (now r1)) chatId email).
  { simpl. apply has_entry_ensure_seen, ensureUser_is_Some. }
  assert (Hstart : ∀ ms w', within chatId email ms (now r1) w' →
                            within chatId email ms w w').
  { intros ms w' (A & B & C & D). split; [|split; [|split]].
    - intros c e i H. apply A. simpl.
      by rewrite is_seen_ensure_seen, is_seen_ensureUser.
    - intros c e i H. destruct (B _ _ _ H) as [H'|H']; [left|by right].
      simpl in H'. by rewrite is_seen_ensure_seen, is_seen_ensureUser in H'.
    - intros c e i. specialize (C c e i). simpl in C.
      by rewrite is_seen_ensure_seen, is_seen_ensureUser in C.
    - intros c e i H. by apply D. }
  assert (Hcatch : ∀ o ms,
            within chatId email ms (now r1) (now (run_of o)) →
            within chatId email ms (now r1)
              (now match o with
                   | Bot2.Normal r => r
                   | Bot2.Thrown r => tick (Bot.log [CycleError email]) r
                   end)).
  { intros [r|r] ms H; [done|]. by eapply within_same; [..|exact H]. }
  apply Hstart, Hcatch. unfold Bot2.for_of.
  destruct (Bot2.fetch resp) as [ok res|ms|n|]; cbn [items run_of];
    try apply within_refl.
  - apply (bot2_process_mails ms (Bot2.Normal r1) He).
  - apply (bot2_process_mails (repeat Bot2.undefined_mail n) (Bot2.Normal r1) He).
Qed.

End Bot2Cycle.

(** X16.  bot2.js sends at most one notice per message id, however many
    cycles are run against a response and whichever deliveries fail: after
    [n] cycles the number of notices for an id is its old number or one more,
    and it is the old number when the id was seen or is not among the
    messages the loop iterates over: the items of an array, or, for a
    response that is a string, one message without id per character.  No
    mark is lost on the way, and an id whose notice was attempted is marked
    seen, delivered or not. *)
Theorem bot2_at_most_one_notice :
  ∀ (env : Env) (chatId email : string) (resp : http mail)
    (attResp : mail -> http attachment) (n : nat) (w : World) (c e i : string),
    let w' := bot2_cycles env chatId email resp attResp n w in
    notified c e i (sent w) ≤ notified c e i (sent w') ∧
    notified c e i (sent w') ≤
      notified c e i (sent w) +
      (if negb (is_seen (userData w) c e i) &&
          hits chatId email (items (Bot2.fetch resp)) c e i
       then 1 else 0) ∧
    (is_seen (userData w) c e i = true → is_seen (userData w') c e i = true) ∧
    (notified c e i (sent w) < notified c e i (sent w') →
     is_seen (userData w') c e i = true).
Proof.
  intros env chatId email resp attResp n w c e i.
  assert (H : within chatId email (items (Bot2.fetch resp)) w
                (bot2_cycles env chatId email resp attResp n w)).
  { induction n as [|n IH]; simpl; [apply within_refl|].
    fold (bot2_cycles env chatId email resp attResp n w).
    set (wn := bot2_cycles env chatId email resp attResp n w) in *.
    pose proof (bot2_cycle_within env chatId email attResp resp wn) as Hc.
    set (wn' := Bot2.cycle env chatId email resp attResp wn) in *.
    destruct IH as (A & B & C & D). destruct Hc as (A' & B' & C' & D').
    split; [|split; [|split]].
    - auto.
    - intros c0 e0 i0 H. destruct (B' _ _ _ H) as [H'|H']; auto.
    - intros c0 e0 i0. destruct (C c0 e0 i0) as [C1 C2].
      destruct (C' c0 e0 i0) as [C1' C2']. split; [lia|].
      destruct (is_seen (userData wn) c0 e0 i0) eqn:Hsn.
      + simpl in C2'. lia.
      + destruct (decide (notified c0 e0 i0 (sent w) < notified c0 e0 i0 (sent wn)))
          as [Hlt|Hge].
        * apply D in Hlt. congruence.
        * assert (Hs0 : is_seen (userData w) c0 e0 i0 = false).
          { destruct (is_seen (userData w) c0 e0 i0) eqn:E; [|done].
            apply A in E. congruence. }
          rewrite Hs0. simpl in *. lia.
    - intros c0 e0 i0 H.
      destruct (decide (notified c0 e0 i0 (sent wn) < notified c0 e0 i0 (sent wn')))
        as [Hlt|Hge]; [by apply D'|].
      destruct (C' c0 e0 i0) as [C1' _]. apply A', D. lia. }
  destruct H as (A & B & C & D). destruct (C c e i) as [C1 C2].
  split; [done|]. split; [done|]. split; [apply A|apply D].
Qed.

(** X17.  The import of bot2.js, given an ASCII argument, keeps blank
    items: it appends, each once, the trimmed items of the argument that the list lacked, the empty address
    among them when an item is blank, and replies with the number of items,
    which is at least one. *)
Theorem bot2_import_keeps_blank_items :
  ∀ (env : Env) (chatId arg : string) (w : World),
    ascii_only arg = true →
    let es := map trim (split_commas arg) in
    let old := tracked (userData w) chatId in
    let w' := Bot2.import_handler env chatId arg w in
    tracked (userData w') chatId = old ++ fresh_of old es ∧
    (∀ x, x ∈ tracked (userData w') chatId ↔ x ∈ old ∨ x ∈ es) ∧
    ((∃ y, y ∈ split_commas arg ∧ trim y = "") →
     "" ∈ tracked (userData w') chatId) ∧
    1 ≤ length es ∧
    attempts (sent w') =
      (chatId, Reply (ImportedCount (length es))) :: attempts (sent w).
Proof.
  intros env chatId arg w _ es old w'.
  destruct (variant_import_loop chatId es w) as (A & _ & _).
  assert (Hw' : w' =
    Bot2.sendMessage env chatId (Reply (ImportedCount (length es)))
      (Bot.saveData env
         (Bot.update (fun _ => (import_loop chatId es
                                  (Bot.ensureUser chatId (userData w))).1)
            (Bot.update (Bot.ensureUser chatId) w)))).
  { unfold w', Bot2.import_handler. fold es. simpl.
    by destruct (import_loop chatId es (Bot.ensureUser chatId (userData w))). }
  assert (Ht : tracked (userData w') chatId = old ++ fresh_of old es).
  { rewrite Hw'. simpl. by rewrite userData_saveData. }
  assert (Hmem : ∀ x, x ∈ tracked (userData w') chatId ↔ x ∈ old ∨ x ∈ es).
  { intros x. rewrite Ht. apply fresh_of_spec. }
  split; [exact Ht|]. split; [exact Hmem|]. split; [|split].
  - intros (y & Hy & Hblank). apply Hmem. right. rewrite <- Hblank.
    unfold es. by apply list_elem_of_fmap_2.
  - unfold es. rewrite length_map. unfold split_commas.
    generalize (@nil ascii). generalize (list_ascii_of_string arg).
    intros l. induction l as [|a l IH]; intros acc; simpl; [lia|].
    destruct (Ascii.eqb a ","%char); simpl; [lia|apply IH].
  - rewrite Hw'. simpl. by rewrite sent_saveData.
Qed.

Lemma bot2_import_keeps_blank_items_witness :
  ascii_only "a@x.io, ,a@x.io" = true ∧
  tracked (userData (Bot2.import_handler all_fine "7" "a@x.io, ,a@x.io"
                       sample_world)) "7" = ["x@a.test"; "a@x.io"; ""].
Proof.
  split; [reflexivity|].
  apply (bot2_import_keeps_blank_items all_fine "7" "a@x.io, ,a@x.io" sample_world).
  reflexivity.
Defined.

(** X18.  The remove-address handler of backup.js, given an ASCII argument.
    For a user it does not
    know it changes nothing, writes nothing and says so.  For a known user
    it takes the address off the list, drops its seen-set, leaves the other
    seen-sets alone, saves, and replies "stopped" whether or not the address
    was tracked. *)
Theorem backup_delete_outcome :
  ∀ (env : Env) (chatId arg : string) (w : World),
    ascii_only arg = true →
    let email := trim arg in
    let w' := Backup.delete_handler env chatId arg w in
    (userData w !! chatId = None →
       userData w' = userData w ∧ disk w' = disk w ∧ writes w' = writes w ∧
       attempts (sent w') = (chatId, Reply NoTrackedEmails) :: attempts (sent w)) ∧
    (is_Some (userData w !! chatId) →
       tracked (userData w') chatId =
         List.filter (fun x => negb (String.eqb x email)) (tracked (userData w) chatId) ∧
       seen_entry (userData w') chatId email = None ∧
       (∀ c e, (c, e) ≠ (chatId, email) →
               seen_entry (userData w') c e = seen_entry (userData w) c e) ∧
       writes w' = S (writes w) ∧
       (write_ok env (writes w) = true → disk w' = Snapshot (userData w')) ∧
       attempts (sent w') = (chatId, Reply (Stopped email)) :: attempts (sent w)).
Proof.
  intros env chatId arg w _ email w'. unfold w', Backup.delete_handler. fold email.
  destruct (userData w !! chatId) as [u|] eqn:Hu.
  - split; [done|]. intros _. simpl.
    rewrite userData_saveData, sent_saveData. simpl.
    split; [by rewrite tracked_forget_seen, tracked_drop_email|].
    split; [apply seen_entry_forget_seen_eq|].
    split.
    { intros c e Hne. by rewrite seen_entry_forget_seen_ne, seen_entry_drop_email. }
    unfold Bot.saveData. simpl. by destruct (write_ok env (writes w)).
  - split; [done|]. intros [? [=]].
Qed.

Lemma backup_delete_outcome_witness :
  ascii_only "x@a.test " = true ∧
  is_Some (userData seen_world !! "7") ∧
  tracked (userData (Backup.delete_handler all_fine "7" "x@a.test " seen_world)) "7" = [] ∧
  seen_entry (userData (Backup.delete_handler all_fine "7" "x@a.test " seen_world))
    "7" "x@a.test" = None.
Proof.
  assert (Hu : is_Some (userData seen_world !! "7")) by (vm_compute; eauto).
  split; [reflexivity|]. split; [exact Hu|].
  destruct (backup_delete_outcome all_fine "7" "x@a.test " seen_world)
    as [_ H]; [reflexivity|].
  destruct (H Hu) as (A & B & _).
  split; [exact A|exact B].
Defined.

(** X19.  In bot.js the handlers add-address, remove-address and import,
    given an ASCII text without a second word, only answer with their usage line;
    and import, given a second word that holds no address once split at the
    commas and cleaned, only answers that the addresses are not valid.  In
    these cases no tracked list and no seen-set changes and nothing is
    written. *)
Theorem commands_without_argument_change_nothing :
  ∀ (env : Env) (chatId text : string) (w : World),
    ascii_only text = true →
    (length (split_spaces (trim text)) < 2 →
       only_answers chatId UsageAdd w (Bot.add_handler env chatId text w) ∧
       only_answers chatId UsageDelete w (Bot.delete_handler env chatId text w) ∧
       only_answers chatId UsageImport w (Bot.import_handler env chatId text w)) ∧
    (∀ cmd emailList,
       take 2 (split_spaces (trim text)) = [cmd; emailList] →
       cleaned (split_commas emailList) = [] →
       only_answers chatId InvalidImport w (Bot.import_handler env chatId text w)).
Proof.
  intros env chatId text w _.
  assert (Hok : ∀ r w', userData w' = Bot.ensureUser chatId (userData w) →
            disk w' = disk w → writes w' = writes w →
            attempts (sent w') = (chatId, Reply r) :: attempts (sent w) →
            only_answers chatId r w w').
  { intros r w' A B C D. split; [exact A|]. rewrite A.
    split; [intros c; apply tracked_ensureUser|].
    split; [intros c e; apply seen_entry_ensureUser|]. done. }
  split.
  - intros Hlen. unfold Bot.add_handler, Bot.delete_handler, Bot.import_handler.
    destruct (split_spaces (trim text)) as [|cmd [|part rest]]; simpl in *;
      try lia; (split; [|split]); by apply Hok.
  - intros cmd emailList Hparts Hnone. unfold Bot.import_handler.
    rewrite Hparts, Hnone. by apply Hok.
Qed.

Lemma commands_without_argument_change_nothing_witness :
  ascii_only "  /import  " = true ∧ ascii_only "/import ,," = true ∧
  only_answers "7" UsageImport sample_world
    (Bot.import_handler all_fine "7" "  /import  " sample_world) ∧
  only_answers "7" InvalidImport sample_world
    (Bot.import_handler all_fine "7" "/import ,," sample_world).
Proof.
  destruct (commands_without_argument_change_nothing all_fine "7" "  /import  "
              sample_world eq_refl) as [A _].
  destruct (commands_without_argument_change_nothing all_fine "7" "/import ,,"
              sample_world eq_refl) as [_ B].
  split; [reflexivity|]. split; [reflexivity|]. split.
  - apply A. vm_compute. lia.
  - apply (B "/import" ",,"); reflexivity.
Defined.

(** ** bot2.js against bot.js *)

Section Agreement.
Variables (env : Env) (chatId email : string).
Variable attList : mail -> list attachment.
Hypothesis delivered_all : ∀ k, deliver env k = true.

Let attResp : mail -> http attachment := fun m => HttpOk (BodyArray (attList m)).

Lemma agree_send m2 m1 w w' :
  (∀ c e i ok, is_notice c e i {| to := chatId; text := m2; delivered := ok |} =
               is_notice c e i {| to := chatId; text := m1; delivered := ok |}) →
  agree w w' →
  agree (Bot2.sendMessage env chatId m2 w) (Bot.sendTelegram env chatId m1 w') ∧
  Bot2.rejected (Bot2.sendMessage env chatId m2 w) = false.
Proof.
  intros Hn (A & B & C & D & E). split.
  - split; [done|]. split; [done|]. split; [done|]. split; [simpl; by rewrite D|].
    intros c e i. simpl. rewrite E, D.
    unfold is_notice in *. simpl in *.
    by rewrite (Hn c e i (deliver env (length (sent w')))).
  - unfold Bot2.rejected. simpl. by rewrite delivered_all.
Qed.

Lemma agree_save w w' :
  agree w w' → agree (Bot.saveData env w) (Bot.saveData env w').
Proof.
  intros (A & B & C & D & E). unfold Bot.saveData. rewrite C, A, B.
  destruct (write_ok env (writes w')); [|destruct (torn env (writes w'))];
    (split; [done|]); (split; [done|]); (split; [done|]); (split; [exact D|]);
    exact E.
Qed.

Lemma agree_attachments atts r2 r1 :
  agree (now r2) (now r1) →
  ∃ r2', fold_left
           (fun o a => Bot2.and_then o (fun r =>
              Bot2.await_send env chatId (Bot2.attachment_note a) r))
           atts (Bot2.Normal r2) = Bot2.Normal r2' ∧
         agree (now r2') (now (Bot.send_attachments env chatId atts r1)).
Proof.
  unfold Bot.send_attachments. revert r2 r1.
  induction atts as [|a atts IH]; intros r2 r1 H; simpl; [by exists r2|].
  destruct (agree_send (Bot2.attachment_note a) (Bot.attachment_note a)
              (now r2) (now r1)) as [Ha Hr]; [done|done|].
  unfold Bot2.await_send at 2. cbn [now tick] in Hr |- *. rewrite Hr.
  apply IH. exact Ha.
Qed.

Lemma agree_process_mail r2 r1 m :
  agree (now r2) (now r1) →
  ∃ r2', Bot2.process_mail env chatId email attResp r2 m = Bot2.Normal r2' ∧
         agree (now r2') (now (Bot.process_mail env chatId email attResp r1 m)).
Proof.
  intros H. unfold Bot2.process_mail, Bot.process_mail.
  rewrite (proj1 H).
  destruct (is_seen (userData (now r1)) chatId email (mail_id m)); [by exists r2|].
  assert (Hm : agree
    (now (tick (Bot.update (Bot.mark_seen chatId email (mail_id m))) r2))
    (now (tick (Bot.update (Bot.mark_seen chatId email (mail_id m))) r1))).
  { destruct H as (A & B & C & D & E). repeat split; simpl; try done.
    by rewrite A. }
  destruct (agree_send (Bot2.compose email m) (Bot.compose email m) _ _
              (fun _ _ _ _ => eq_refl) Hm) as [Hs Hr].
  unfold Bot2.await_send at 1. cbn [now tick] in Hr |- *. rewrite Hr.
  cbn [Bot2.and_then].
  destruct (mail_hasAttachments m).
  - unfold attResp. cbn [Bot2.fetch Bot2.for_of Bot.fetchAttachmentsForAddress Bot.unwrap].
    set (r2s := tick (Bot2.sendMessage env chatId (Bot2.compose email m)) _).
    set (r1s := tick (Bot.log []) _).
    destruct (agree_attachments (attList m) r2s r1s) as (r2' & -> & Ha); [exact Hs|].
    cbn [Bot2.and_then]. eexists. split; [done|]. simpl. by apply agree_save.
  - cbn [Bot2.and_then]. eexists. split; [done|]. simpl. by apply agree_save.
Qed.

Lemma agree_process_mails ms r2 r1 :
  agree (now r2) (now r1) →
  ∃ r2', fold_left
           (fun o x => Bot2.and_then o (fun r =>
              Bot2.process_mail env chatId email attResp r x))
           ms (Bot2.Normal r2) = Bot2.Normal r2' ∧
         agree (now r2')
           (now (fold_left (Bot.process_mail env chatId email attResp) ms r1)).
Proof.
  revert r2 r1. induction ms as [|m ms IH]; intros r2 r1 H; simpl; [by exists r2|].
  destruct (agree_process_mail r2 r1 m H) as (r2' & -> & H').
  by apply IH.
Qed.

Lemma agree_cycles ms w :
  agree (Bot2.cycle env chatId email (HttpOk (BodyArray ms)) attResp w)
        (Bot.cycle env chatId email (HttpOk (BodyArray ms)) attResp w).
Proof.
  unfold Bot2.cycle, Bot2.checkEmailInbox, Bot.cycle, Bot.checkEmailInbox.
  cbn [Bot2.fetch Bot2.for_of Bot.fetchEmailsForAddress Bot.unwrap].
  set (r2 := tick (Bot.update (Bot.ensure_seen chatId email)) _).
  set (r1 := tick (Bot.update (Bot.ensure_seen chatId email)) _).
  destruct (agree_process_mails ms r2 r1) as (r2' & -> & H); [|exact H].
  by repeat split.
Qed.

End Agreement.

(** X20.  When every delivery succeeds and the provider answers with bare
    arrays, a cycle of bot2.js leaves the same memory, the same file, the
    same number of writes and sends and the same number of notices of every
    message as a cycle of bot.js. *)
Theorem bot2_agrees_with_bot_on_arrays :
  ∀ (env : Env) (chatId email : string) (ms : list mail)
    (attList : mail -> list attachment) (w : World),
    (∀ k, deliver env k = true) →
    agree
      (Bot2.cycle env chatId email (HttpOk (BodyArray ms))
         (fun m => HttpOk (BodyArray (attList m))) w)
      (Bot.cycle env chatId email (HttpOk (BodyArray ms))
         (fun m => HttpOk (BodyArray (attList m))) w).
Proof.
  intros env chatId email ms attList w Hd. by apply agree_cycles.
Qed.

Lemma bot2_agrees_with_bot_on_arrays_witness :
  (∀ k, deliver all_fine k = true) ∧
  agree
    (Bot2.cycle all_fine "7" "x@a.test"
       (HttpOk (BodyArray [plain_mail "1"; plain_mail "2"]))
       no_attachments sample_world)
    (Bot.cycle all_fine "7" "x@a.test"
       (HttpOk (BodyArray [plain_mail "1"; plain_mail "2"]))
       no_attachments sample_world).
Proof.
  split; [reflexivity|].
  apply (bot2_agrees_with_bot_on_arrays all_fine "7" "x@a.test"
           [plain_mail "1"; plain_mail "2"] (fun _ => []) sample_world).
  reflexivity.
Defined.

(** X21.  When the provider answers the message request with an envelope,
    the shape bot.js unwraps, a cycle of bot2.js fails at its loop: it sends
    nothing, writes nothing, marks no message as seen and logs the error,
    whatever the envelope holds. *)
Theorem bot2_cannot_read_envelopes :
  ∀ (env : Env) (chatId email : string) (ok : bool) (res : option (list mail))
    (attResp : mail -> http attachment) (w : World),
    let w' := Bot2.cycle env chatId email (HttpOk (BodyEnvelope ok res)) attResp w in
    sent w' = sent w ∧ writes w' = writes w ∧ disk w' = disk w ∧
    console w' = CycleError email :: console w ∧
    ∀ c e i, is_seen (userData w') c e i = is_seen (userData w) c e i.
Proof.
  intros env chatId email ok res attResp w. simpl.
  split; [done|]. split; [done|]. split; [done|]. split; [done|].
  intros c e i. by rewrite is_seen_ensure_seen, is_seen_ensureUser.
Qed.
